(** * Wallet interaction indexer: shallow embedding and verified properties

    The development follows [src/indexer.js] (the incremental transaction
    indexer), [src/database.sql] (the counter table) and the score endpoint
    of [src/server.js].

    - JavaScript values are modelled by the Rocq types closest to them:
      strings by [string], [null]/[undefined] by [None], arrays by [list],
      numbers that only ever hold integers by [Z].
    - A rejected promise or a thrown exception is the [Throw] constructor of
      [Result]; the module-level variable [lastProcessedSignature], the
      rows of [wallet_scores] and the I/O issued live in a [World] that is
      threaded through a small state-and-exception monad.
    - Everything the program cannot decide by itself (RPC answers, storage
      failures) is an oracle carried by an environment record. *)

From stdpp Require Import gmap strings list fin_maps sorting.
From Stdlib Require Import ZArith Lia.

Open Scope string_scope.
Open Scope Z_scope.

(** ** JavaScript array helpers *)

Module JS.

(** [Array.prototype.findIndex]: first index satisfying [p], or [-1]. *)
Fixpoint findIndex {A : Type} (p : A -> bool) (l : list A) : Z :=
  match l with
  | [] => -1
  | x :: t =>
      if p x then 0
      else let r := findIndex p t in if r <? 0 then -1 else r + 1
  end.

(** [Array.prototype.find]: first element satisfying [p], or [undefined]. *)
Fixpoint find {A : Type} (p : A -> bool) (l : list A) : option A :=
  match l with
  | [] => None
  | x :: t => if p x then Some x else find p t
  end.

(** [Array.prototype.some]. *)
Fixpoint some {A : Type} (p : A -> bool) (l : list A) : bool :=
  match l with
  | [] => false
  | x :: t => if p x then true else some p t
  end.

(** Relative index resolution used by [slice]: a negative index counts
    from the end, and the result is clamped to [0, len]. *)
Definition clamp (len i : Z) : Z :=
  if i <? 0 then Z.max (len + i) 0 else Z.min i len.

(** [Array.prototype.slice(start, end)]. *)
Definition slice {A : Type} (start stop : Z) (l : list A) : list A :=
  let len := Z.of_nat (length l) in
  let s := clamp len start in
  let e := clamp len stop in
  take (Z.to_nat (e - s)) (drop (Z.to_nat s) l).

(** Truthiness of a string-or-null value: [null] and the empty string
    are falsy. *)
Definition truthy (v : option string) : bool :=
  match v with
  | None => false
  | Some s => negb (String.eqb s "")
  end.

End JS.

(** ** Ledger data, as returned by the RPC client *)

(** One entry of [getSignaturesForAddress]. *)
Record ConfirmedSignatureInfo := {
  signature : string;
  slot : Z
}.

(** A public key is represented by its canonical base58 text; [equals]
    compares keys, [toBase58] prints one. *)
Record PublicKey := { toBase58 : string }.

Definition equals (a b : PublicKey) : bool :=
  String.eqb (toBase58 a) (toBase58 b).

Record ParsedMessageAccount := {
  pubkey : PublicKey;
  signer : bool;
  writable : bool
}.

Record ParsedInstruction := {
  programId : PublicKey;
  data : string
}.

Record ParsedMessage := {
  accountKeys : list ParsedMessageAccount;
  instructions : list ParsedInstruction
}.

Record ParsedTransaction := {
  signatures : list string;
  message : ParsedMessage
}.

(** [err] is [null] for a transaction that executed successfully. *)
Record ParsedTransactionMeta := {
  err : option string;
  fee : Z
}.

(** A fetched transaction; either field may be missing. *)
Record ParsedTransactionWithMeta := {
  transaction : option ParsedTransaction;
  meta : option ParsedTransactionMeta
}.

(** ** Constants of [indexer.js] *)

Definition CHECK_INTERVAL_MS : Z := 5 * 60 * 1000.
Definition BATCH_FETCH_SIZE : Z := 20.
Definition SIGNATURE_FETCH_LIMIT : Z := 100.

(** ** Novelty filter (indexer.js, lines 79-89) *)

Definition newSignaturesToProcess
    (lastProcessedSignature : option string)
    (signaturesInfo : list ConfirmedSignatureInfo)
  : list ConfirmedSignatureInfo :=
  if JS.truthy lastProcessedSignature then
    let lastKnownIndex :=
      JS.findIndex
        (fun s => match lastProcessedSignature with
                  | Some l => String.eqb (signature s) l
                  | None => false
                  end)
        signaturesInfo in
    if -1 <? lastKnownIndex then JS.slice 0 lastKnownIndex signaturesInfo
    else signaturesInfo
  else signaturesInfo.

(** ** The per-cycle aggregate: a JavaScript [Map] from wallet to count

    Kept as an association list in insertion order, which is the order in
    which [for (const [k, v] of map)] visits the entries. *)

Module JSMap.

Definition t : Type := list (string * Z).

Definition empty : t := [].

Fixpoint get (k : string) (m : t) : option Z :=
  match m with
  | [] => None
  | (k', v) :: r => if String.eqb k' k then Some v else get k r
  end.

(** [set] overwrites in place when the key exists, appends otherwise. *)
Fixpoint set (k : string) (v : Z) (m : t) : t :=
  match m with
  | [] => [(k, v)]
  | (k', v') :: r =>
      if String.eqb k' k then (k', v) :: r else (k', v') :: set k v r
  end.

Definition size (m : t) : Z := Z.of_nat (length m).

End JSMap.

(** [x || 0] on a number-or-undefined value. *)
Definition orZero (v : option Z) : Z :=
  match v with
  | Some n => if n =? 0 then 0 else n
  | None => 0
  end.

(** ** Interaction extractor and aggregator (indexer.js, lines 111-132) *)

Section Extractor.

Variable SOLANA_PROGRAM_ID : PublicKey.

(** Body of the [for (const tx of transactions)] loop: the only effect is
    the update of [walletInteractionCounts]. *)
Definition countInteraction
    (walletInteractionCounts : JSMap.t)
    (tx : option ParsedTransactionWithMeta) : JSMap.t :=
  match tx with
  | Some {| transaction := Some body; meta := Some {| err := None |} |} =>
      match JS.find signer (accountKeys (message body)) with
      | Some firstSignerAccount =>
          let walletAddress := toBase58 (pubkey firstSignerAccount) in
          let programInteracted :=
            JS.some (fun ix => equals (programId ix) SOLANA_PROGRAM_ID)
                    (instructions (message body)) in
          if programInteracted then
            JSMap.set walletAddress
              (orZero (JSMap.get walletAddress walletInteractionCounts) + 1)
              walletInteractionCounts
          else walletInteractionCounts
      | None => walletInteractionCounts
      end
  | _ => walletInteractionCounts
  end.

Definition countBatch
    (walletInteractionCounts : JSMap.t)
    (transactions : list (option ParsedTransactionWithMeta)) : JSMap.t :=
  fold_left countInteraction transactions walletInteractionCounts.

End Extractor.

(** ** Outcomes, observable I/O and the world *)

(** [Throw] is a JavaScript exception (or rejected promise); [OutOfFuel]
    only marks exhaustion of the model's loop bound and is shown below
    never to be produced by a cycle. *)
Inductive Result (A : Type) : Type :=
| Ok (a : A)
| Throw (e : string)
| OutOfFuel.

Arguments Ok {A} a.
Arguments Throw {A} e.
Arguments OutOfFuel {A}.

Inductive Event : Type :=
| RpcGetSignaturesForAddress (limit : Z) (until : option string)
| RpcGetParsedTransactions (batch : list string)
| Sleep (ms : Z)
| DbConnect
| DbBegin
| DbUpsert (wallet : string) (count : Z)
| DbCommit
| DbRollback
| DbRelease
| DbSelectLastSignature
| DbSelectScore (wallet : string).

(** Is the event a command sent to storage? *)
Definition isDbEvent (e : Event) : bool :=
  match e with
  | RpcGetSignaturesForAddress _ _ | RpcGetParsedTransactions _ | Sleep _ => false
  | _ => true
  end.

(** [lastProcessedSignature] is the module-level [let] of indexer.js;
    [wallet_scores] holds the committed rows (wallet_address to
    interaction_count); [session] is the working copy of the transaction
    open on the checked-out client, if any; [trace] lists the I/O issued,
    oldest first. *)
Record World := {
  lastProcessedSignature : option string;
  wallet_scores : gmap string Z;
  session : option (gmap string Z);
  trace : list Event
}.

Definition M (A : Type) : Type := World -> Result A * World.

Definition ret {A : Type} (a : A) : M A := fun w => (Ok a, w).

Definition throw {A : Type} (e : string) : M A := fun w => (Throw e, w).

Definition bind {A B : Type} (m : M A) (k : A -> M B) : M B :=
  fun w =>
    match m w with
    | (Ok a, w') => k a w'
    | (Throw e, w') => (Throw e, w')
    | (OutOfFuel, w') => (OutOfFuel, w')
    end.

Notation "'let*' x ':=' m 'in' k" := (bind m (fun x => k))
  (at level 10, x pattern, m at level 100, k at level 200).

(** [try { m } catch (e) { handler e }]. *)
Definition try_catch {A : Type} (m : M A) (handler : string -> M A) : M A :=
  fun w =>
    match m w with
    | (Throw e, w') => handler e w'
    | r => r
    end.

(** [try { m } finally { fin }]: [fin] always runs; an exception of [m]
    is re-thrown afterwards unless [fin] itself fails. *)
Definition try_finally {A : Type} (m : M A) (fin : M unit) : M A :=
  fun w =>
    match m w with
    | (OutOfFuel, w') => (OutOfFuel, w')
    | (r, w') =>
        match fin w' with
        | (Ok _, w'') => (r, w'')
        | (Throw e, w'') => (Throw e, w'')
        | (OutOfFuel, w'') => (OutOfFuel, w'')
        end
    end.

Definition emit (e : Event) : M unit :=
  fun w => (Ok tt, {| lastProcessedSignature := lastProcessedSignature w;
                      wallet_scores := wallet_scores w;
                      session := session w;
                      trace := (trace w ++ [e])%list |}).

Definition readLast : M (option string) :=
  fun w => (Ok (lastProcessedSignature w), w).

Definition writeLast (s : string) : M unit :=
  fun w => (Ok tt, {| lastProcessedSignature := Some s;
                      wallet_scores := wallet_scores w;
                      session := session w;
                      trace := trace w |}).

Definition setSession (s : option (gmap string Z)) : M unit :=
  fun w => (Ok tt, {| lastProcessedSignature := lastProcessedSignature w;
                      wallet_scores := wallet_scores w;
                      session := s;
                      trace := trace w |}).

Definition setScores (t : gmap string Z) : M unit :=
  fun w => (Ok tt, {| lastProcessedSignature := lastProcessedSignature w;
                      wallet_scores := t;
                      session := session w;
                      trace := trace w |}).

(** ** Storage: the [wallet_scores] table of database.sql *)

(** Range of the SQL type [INTEGER]. *)
Definition INT4_MIN : Z := -2147483648.
Definition INT4_MAX : Z := 2147483647.

Definition in_int4 (n : Z) : bool := (INT4_MIN <=? n) && (n <=? INT4_MAX).

(** Width of the column [wallet_address VARCHAR(44)]. *)
Definition WALLET_ADDRESS_WIDTH : nat := 44.

(** The statement
    [INSERT INTO wallet_scores (wallet_address, interaction_count)
     VALUES ($1, $2) ON CONFLICT (wallet_address) DO UPDATE
     SET interaction_count = wallet_scores.interaction_count + $2]
    on a table; [None] when the engine rejects it (value too long for the
    column, integer out of range). *)
Definition upsert (walletAddress : string) (count : Z) (t : gmap string Z)
  : option (gmap string Z) :=
  if (WALLET_ADDRESS_WIDTH <? String.length walletAddress)%nat then None
  else if negb (in_int4 count) then None
  else
    match t !! walletAddress with
    | None => Some (<[walletAddress := count]> t)
    | Some interaction_count =>
        if in_int4 (interaction_count + count)
        then Some (<[walletAddress := interaction_count + count]> t)
        else None
    end.

(** What an external call hands back: a value, or an exception (for an
    asynchronous call, the rejection of its promise). *)
Inductive Completion (A : Type) : Type :=
| Normal (a : A)
| Abrupt (e : string).

Arguments Normal {A} a.
Arguments Abrupt {A} e.

(** What the outside world answers during one cycle.  The RPC oracles see
    the request (for the batch fetch also the offset of the batch in the
    novel set); the storage oracles say whether a command goes through. *)
Record Env := {
  getSignaturesForAddress :
    Z -> option string -> Completion (option (list ConfirmedSignatureInfo));
  getParsedTransactions :
    Z -> list string -> Completion (list (option ParsedTransactionWithMeta));
  db_connect_ok : bool;
  db_begin_ok : bool;
  db_statement_ok : string -> Z -> bool;
  db_commit_ok : bool;
  db_rollback_ok : bool;
  db_select_ok : bool
}.

Section Indexer.

Variable SOLANA_PROGRAM_ID : PublicKey.
Variable env : Env.

(** [await] of an external call: the value, or the exception re-thrown. *)
Definition await {A : Type} (r : Completion A) : M A :=
  match r with
  | Normal a => ret a
  | Abrupt e => throw e
  end.

(** [db.getClient()]. *)
Definition db_getClient : M unit :=
  let* _ := emit DbConnect in
  if db_connect_ok env then ret tt else throw "connection refused".

(** [client.query('BEGIN')]: the transaction starts from the committed rows. *)
Definition client_BEGIN : M unit :=
  let* _ := emit DbBegin in
  if db_begin_ok env
  then fun w => setSession (Some (wallet_scores w)) w
  else throw "BEGIN failed".

(** [client.query(queryText, [walletAddress, count])]: inside a
    transaction the statement changes the working copy only. *)
Definition client_upsert (walletAddress : string) (count : Z) : M unit :=
  let* _ := emit (DbUpsert walletAddress count) in
  if db_statement_ok env walletAddress count then
    fun w =>
      match session w with
      | Some t =>
          match upsert walletAddress count t with
          | Some t' => setSession (Some t') w
          | None => throw "statement rejected" w
          end
      | None =>
          match upsert walletAddress count (wallet_scores w) with
          | Some t' => setScores t' w
          | None => throw "statement rejected" w
          end
      end
  else throw "statement failed".

(** [client.query('COMMIT')]: the working copy becomes the committed rows. *)
Definition client_COMMIT : M unit :=
  let* _ := emit DbCommit in
  if db_commit_ok env then
    fun w =>
      match session w with
      | Some t => (let* _ := setScores t in setSession None) w
      | None => ret tt w
      end
  else throw "COMMIT failed".

(** [client.query('ROLLBACK')]: the working copy is dropped. *)
Definition client_ROLLBACK : M unit :=
  let* _ := emit DbRollback in
  if db_rollback_ok env then setSession None else throw "ROLLBACK failed".

(** [client.release()]: uncommitted work of the client is never seen by
    readers of the table. *)
Definition client_release : M unit :=
  let* _ := emit DbRelease in setSession None.

(** [for (const [walletAddress, count] of walletInteractionCounts)]. *)
Fixpoint forEachEntry (entries : JSMap.t) : M unit :=
  match entries with
  | [] => ret tt
  | (walletAddress, count) :: rest =>
      let* _ := client_upsert walletAddress count in
      forEachEntry rest
  end.

(** Merge committer (indexer.js, lines 137-159). *)
Definition mergeCounts (walletInteractionCounts : JSMap.t) : M unit :=
  if 0 <? JSMap.size walletInteractionCounts then
    let* _ := db_getClient in
    try_finally
      (try_catch
         (let* _ := client_BEGIN in
          let* _ := forEachEntry walletInteractionCounts in
          client_COMMIT)
         (fun dbError => client_ROLLBACK))
      client_release
  else ret tt.

(** Batch detail fetcher and aggregation (indexer.js, lines 102-135):
    [for (let i = 0; i < length; i += BATCH_FETCH_SIZE)].  [fuel] bounds
    the number of iterations. *)
Fixpoint fetchBatches (fuel : nat) (i : Z)
    (novel : list ConfirmedSignatureInfo)
    (walletInteractionCounts : JSMap.t) : M JSMap.t :=
  if i <? Z.of_nat (length novel) then
    match fuel with
    | O => fun w => (OutOfFuel, w)
    | S fuel' =>
        let batchSignatures :=
          map signature (JS.slice i (i + BATCH_FETCH_SIZE) novel) in
        if Z.of_nat (length batchSignatures) =? 0 then
          fetchBatches fuel' (i + BATCH_FETCH_SIZE) novel walletInteractionCounts
        else
          let* _ := emit (RpcGetParsedTransactions batchSignatures) in
          let* transactions := await (getParsedTransactions env i batchSignatures) in
          let counts' :=
            countBatch SOLANA_PROGRAM_ID walletInteractionCounts transactions in
          let* _ :=
            (if BATCH_FETCH_SIZE <? Z.of_nat (length novel)
             then emit (Sleep 500) else ret tt) in
          fetchBatches fuel' (i + BATCH_FETCH_SIZE) novel counts'
    end
  else ret walletInteractionCounts.

(** [lastProcessedSignature = arr[0].signature]; reading [.signature] of
    a missing element is a TypeError. *)
Definition assignNewest (arr : list ConfirmedSignatureInfo) : M unit :=
  match arr with
  | s :: _ => writeLast (signature s)
  | [] => throw "TypeError"
  end.

(** Length of an array-or-null value, for the guards of lines 67-70. *)
Definition lengthOf (a : option (list ConfirmedSignatureInfo)) : Z :=
  match a with
  | Some l => Z.of_nat (length l)
  | None => 0
  end.

(** One cycle: [processNewTransactions] of indexer.js. *)
Definition processNewTransactions : M unit :=
  try_catch
    (let* last := readLast in
     let* _ := emit (RpcGetSignaturesForAddress SIGNATURE_FETCH_LIMIT last) in
     let* fetched :=
       await (getSignaturesForAddress env SIGNATURE_FETCH_LIMIT last) in
     match fetched with
     | None => ret tt
     | Some signaturesInfo =>
         if Z.of_nat (length signaturesInfo) =? 0 then
           if negb (JS.truthy last) && (0 <? lengthOf fetched)
           then assignNewest signaturesInfo
           else ret tt
         else
           let novel := newSignaturesToProcess last signaturesInfo in
           if Z.of_nat (length novel) =? 0 then
             if 0 <? Z.of_nat (length signaturesInfo)
             then assignNewest signaturesInfo
             else ret tt
           else
             let* walletInteractionCounts :=
               fetchBatches (length novel) 0 novel JSMap.empty in
             let* _ := mergeCounts walletInteractionCounts in
             assignNewest novel
     end)
    (fun error => ret tt).

(** Placeholder of indexer.js, lines 25-43: whatever the query answers,
    the function returns [null]. *)
Definition getLastProcessedSignatureFromDB : M (option string) :=
  try_catch
    (let* _ := emit DbSelectLastSignature in
     let* _ := (if db_select_ok env then ret tt else throw "query failed") in
     ret None)
    (fun err => ret None).

(** Placeholder of indexer.js, lines 45-48: the body is empty. *)
Definition storeSignatureProcessed (signature : string) : M unit := ret tt.

End Indexer.

(** ** Process life cycle *)

(** State of a freshly started indexer process over the given table:
    [let lastProcessedSignature = null], and [runIndexer] loads nothing. *)
Definition boot (scores : gmap string Z) : World :=
  {| lastProcessedSignature := None;
     wallet_scores := scores;
     session := None;
     trace := [] |}.

(** A restart keeps what storage holds and nothing else. *)
Definition restart (w : World) : World := boot (wallet_scores w).

(** World after a cycle. *)
Definition cycle (pid : PublicKey) (env : Env) (w : World) : World :=
  snd (processNewTransactions pid env w).

(** Cycles run one after the other, each with its own environment. *)
Definition runCycles (pid : PublicKey) (envs : list Env) (w : World) : World :=
  fold_left (fun w env => cycle pid env w) envs w.

(** ** Scheduler: [runIndexer] (indexer.js, lines 174-182)

    [await processNewTransactions()] suspends [runIndexer] until the first
    cycle settles; only then is [setInterval(processNewTransactions,
    CHECK_INTERVAL_MS)] executed.  From then on the timer calls
    [processNewTransactions] each time the interval elapses; the promise
    it returns is dropped.  Cycles are numbered in launch order. *)

Inductive SchedulerEvent : Type :=
| CycleSettled (id : nat)
| IntervalElapsed.

Record Scheduler := {
  nextId : nat;
  running : list nat;
  intervalArmed : bool
}.

(** The synchronous prefix of [runIndexer]: cycle 0 is in flight and no
    timer exists yet. *)
Definition runIndexer : Scheduler :=
  {| nextId := 1; running := [0%nat]; intervalArmed := false |}.

Definition launch (s : Scheduler) : Scheduler :=
  {| nextId := S (nextId s);
     running := (running s ++ [nextId s])%list;
     intervalArmed := intervalArmed s |}.

Definition schedulerStep (s : Scheduler) (e : SchedulerEvent) : Scheduler :=
  match e with
  | CycleSettled id =>
      if existsb (Nat.eqb id) (running s) then
        {| nextId := nextId s;
           running := List.filter (fun j => negb (Nat.eqb j id)) (running s);
           intervalArmed := intervalArmed s || Nat.eqb id 0 |}
      else s
  | IntervalElapsed => if intervalArmed s then launch s else s
  end.

Definition schedulerRun (s : Scheduler) (es : list SchedulerEvent) : Scheduler :=
  fold_left schedulerStep es s.

(** ** Score endpoint: [GET /api/score/:walletAddress] (server.js, lines 42-83) *)

Inductive ResponseBody : Type :=
| ErrorBody (error : string)
| ScoreBody (walletAddress programId : string) (interactionCount : Z).

Record Response := {
  status : Z;
  body : ResponseBody
}.

Section Server.

Variable SOLANA_PROGRAM_ID_STRING : string.

(** The constructor [new PublicKey(address)] of the ledger client library:
    it yields a key or throws. *)
Variable new_PublicKey : string -> Completion PublicKey.

Variable env : Env.

Definition isValidSolanaAddress (address : string) : bool :=
  match new_PublicKey address with
  | Normal _ => true
  | Abrupt _ => false
  end.

(** [db.query('SELECT interaction_count FROM wallet_scores WHERE
    wallet_address = $1', [walletAddress])]: the rows found. *)
Definition db_query_score (walletAddress : string) : M (list Z) :=
  let* _ := emit (DbSelectScore walletAddress) in
  if db_select_ok env then
    fun w =>
      ret (match wallet_scores w !! walletAddress with
           | Some interaction_count => [interaction_count]
           | None => []
           end) w
  else throw "query failed".

Definition getScore (walletAddress : string) : M Response :=
  if negb (JS.truthy (Some walletAddress)) then
    ret {| status := 400;
           body := ErrorBody "walletAddress parameter is required" |}
  else if negb (isValidSolanaAddress walletAddress) then
    ret {| status := 400;
           body := ErrorBody "Invalid wallet address format." |}
  else
    try_catch
      (let* rows := db_query_score walletAddress in
       let interactionCount :=
         match rows with
         | interaction_count :: _ => interaction_count
         | [] => 0
         end in
       ret {| status := 200;
              body := ScoreBody walletAddress SOLANA_PROGRAM_ID_STRING
                                interactionCount |})
      (fun error =>
         ret {| status := 500;
                body := ErrorBody "Failed to fetch wallet score from database." |}).

End Server.

(** ** Sample data used to exercise the definitions *)

Module Sample.

Definition program : PublicKey :=
  {| toBase58 := "8q6fEiMQYG1o3WgZyb9BTmo57zUDSmn2nTD9gcVoEo7" |}.

Definition otherProgram : PublicKey :=
  {| toBase58 := "11111111111111111111111111111111" |}.

Definition walletX : string := "HPDiTWTRrLDjsmKNrj3BgfWYjNrfPXe74M79A3G3tAXj".

Definition sig (name : string) (n : Z) : ConfirmedSignatureInfo :=
  {| signature := name; slot := n |}.

Definition s1 := sig "s1" 1.
Definition s2 := sig "s2" 2.
Definition s3 := sig "s3" 3.
Definition s4 := sig "s4" 4.
Definition s5 := sig "s5" 5.

Definition window : list ConfirmedSignatureInfo := [s5; s4; s3; s2; s1].

Definition account (address : string) (isSigner : bool) : ParsedMessageAccount :=
  {| pubkey := {| toBase58 := address |}; signer := isSigner; writable := true |}.

Definition invoke (p : PublicKey) : ParsedInstruction :=
  {| programId := p; data := "" |}.

(** A transaction signed by [wallet] with the given instructions and
    execution error. *)
Definition tx (wallet : string) (ixs : list ParsedInstruction)
    (error : option string) : ParsedTransactionWithMeta :=
  {| transaction :=
       Some {| signatures := ["sig"];
               message := {| accountKeys := [account "Readonly111" false;
                                             account wallet true;
                                             account "Cosigner22" true];
                             instructions := ixs |} |};
     meta := Some {| err := error; fee := 5000 |} |}.

Definition goodTx : ParsedTransactionWithMeta := tx walletX [invoke program] None.

Definition failedTx : ParsedTransactionWithMeta :=
  tx walletX [invoke program] (Some "InstructionError").

Definition unsignedTx : ParsedTransactionWithMeta :=
  {| transaction :=
       Some {| signatures := [];
               message := {| accountKeys := [account "Readonly111" false];
                             instructions := [invoke program] |} |};
     meta := Some {| err := None; fee := 0 |} |}.

(** An environment whose RPC node serves [sigs] and answers every batch
    with one [goodTx] per requested signature; the storage oracles are
    given one by one. *)
Definition envWith (sigs : list ConfirmedSignatureInfo)
    (connect begin statement commit rollback : bool) : Env :=
  {| getSignaturesForAddress := fun _ _ => Normal (Some sigs);
     getParsedTransactions :=
       fun _ batch => Normal (map (fun _ => Some goodTx) batch);
     db_connect_ok := connect;
     db_begin_ok := begin;
     db_statement_ok := fun _ _ => statement;
     db_commit_ok := commit;
     db_rollback_ok := rollback;
     db_select_ok := true |}.

Definition healthy (sigs : list ConfirmedSignatureInfo) : Env :=
  envWith sigs true true true true true.

(** Storage accepts the connection and the statements but not the COMMIT. *)
Definition commitFails (sigs : list ConfirmedSignatureInfo) : Env :=
  envWith sigs true true true false true.

(** Storage cannot be reached at all. *)
Definition connectFails (sigs : list ConfirmedSignatureInfo) : Env :=
  envWith sigs false true true true true.

(** Storage rejects the statement for wallet [B] only. *)
Definition statementFailsForB : Env :=
  {| getSignaturesForAddress := fun _ _ => Normal (Some []);
     getParsedTransactions := fun _ _ => Normal [];
     db_connect_ok := true;
     db_begin_ok := true;
     db_statement_ok := fun wallet _ => negb (String.eqb wallet "B");
     db_commit_ok := true;
     db_rollback_ok := true;
     db_select_ok := true |}.

(** The RPC node fails on the batch that starts at [offset]. *)
Definition rpcFailsAt (offset : Z) (sigs : list ConfirmedSignatureInfo) : Env :=
  {| getSignaturesForAddress := fun _ _ => Normal (Some sigs);
     getParsedTransactions :=
       fun i batch =>
         if i =? offset then Abrupt "429 Too Many Requests"
         else Normal (map (fun _ => Some goodTx) batch);
     db_connect_ok := true;
     db_begin_ok := true;
     db_statement_ok := fun _ _ => true;
     db_commit_ok := true;
     db_rollback_ok := true;
     db_select_ok := true |}.

(** Twenty-one signatures, so that a cycle needs two batches. *)
Definition longWindow : list ConfirmedSignatureInfo :=
  map (fun n => sig (String (Ascii.ascii_of_nat (65 + n)) "") (Z.of_nat n))
      (seq 0 21).

(** A stand-in for the library constructor: accepts exactly the texts of
    32 to 44 characters. *)
Definition new_PublicKey (address : string) : Completion PublicKey :=
  if ((32 <=? String.length address) && (String.length address <=? 44))%nat
  then Normal {| toBase58 := address |}
  else Abrupt "Invalid public key input".

End Sample.

(** ** Vocabulary of the specification *)

(** [k] is the first position of identifier [c] in a fetch window. *)
Definition firstOccurrence (c : string)
    (window : list ConfirmedSignatureInfo) (k : nat) : Prop :=
  (signature <$> window) !! k = Some c /\
  forall j : nat, (j < k)%nat -> (signature <$> window) !! j <> Some c.

(** The increment a cycle has accumulated for a wallet so far. *)
Definition tally (m : JSMap.t) (wallet : string) : Z :=
  default 0 (JSMap.get wallet m).

(** [a] is the first account of [keys] marked as a signer. *)
Definition firstSigner (keys : list ParsedMessageAccount)
    (a : ParsedMessageAccount) : Prop :=
  exists before after,
    keys = (before ++ a :: after)%list /\
    signer a = true /\
    Forall (fun b => signer b = false) before.

Definition invokesProgram (pid : PublicKey) (body : ParsedTransaction) : Prop :=
  exists ix, In ix (instructions (message body)) /\ programId ix = pid.

(** The counting predicate: the body is present, executed without error,
    invokes the target program, and its first signer is [wallet]. *)
Definition counted (pid : PublicKey)
    (tx : option ParsedTransactionWithMeta) (wallet : string) : Prop :=
  exists t body m a,
    tx = Some t /\ transaction t = Some body /\ meta t = Some m /\
    err m = None /\
    invokesProgram pid body /\
    firstSigner (accountKeys (message body)) a /\
    toBase58 (pubkey a) = wallet.

(** The wallet credited by [countInteraction], if any. *)
Definition attributedWallet (pid : PublicKey)
    (tx : option ParsedTransactionWithMeta) : option string :=
  match tx with
  | Some {| transaction := Some body; meta := Some {| err := None |} |} =>
      match JS.find signer (accountKeys (message body)) with
      | Some a =>
          if JS.some (fun ix => equals (programId ix) pid)
                     (instructions (message body))
          then Some (toBase58 (pubkey a)) else None
      | None => None
      end
  | _ => None
  end.

(** The whole set of increments applied to a table, when every statement
    goes through. *)
Fixpoint applyAll (env : Env) (entries : JSMap.t) (t : gmap string Z)
  : option (gmap string Z) :=
  match entries with
  | [] => Some t
  | (wallet, count) :: rest =>
      if db_statement_ok env wallet count then
        match upsert wallet count t with
        | Some t' => applyAll env rest t'
        | None => None
        end
      else None
  end.

(** Does the merge of [entries] into [t] reach a successful COMMIT? *)
Definition mergeCommits (env : Env) (entries : JSMap.t) (t : gmap string Z) : bool :=
  db_connect_ok env && db_begin_ok env &&
  bool_decide (is_Some (applyAll env entries t)) && db_commit_ok env.

(** Storage commands a merge may issue. *)
Definition isMergeCommand (e : Event) : bool :=
  match e with
  | DbConnect | DbBegin | DbUpsert _ _ | DbCommit | DbRollback | DbRelease => true
  | _ => false
  end.

Definition isUpsert (e : Event) : bool :=
  match e with
  | DbUpsert _ _ => true
  | _ => false
  end.

(** Every increment of the aggregate is at least one. *)
Definition positiveCounts (m : JSMap.t) : Prop :=
  Forall (fun kv => 1 <= snd kv) m.

(** How the stored count of one wallet may differ between two moments:
    untouched, created with a positive count, or increased by a positive
    amount. *)
Definition persistedChange (before after : option Z) : Prop :=
  after = before \/
  (before = None /\ exists c, 0 < c /\ after = Some c) \/
  (exists old c, before = Some old /\ 0 < c /\ after = Some (old + c)).

(** Events appended to the trace between two worlds are all of kind [P]. *)
Definition onlyIssued (P : Event -> Prop) (w w' : World) : Prop :=
  exists evs, trace w' = (trace w ++ evs)%list /\ Forall P evs.

(** Two worlds agree on everything but the trace. *)
Definition sameState (w w' : World) : Prop :=
  lastProcessedSignature w' = lastProcessedSignature w /\
  wallet_scores w' = wallet_scores w /\
  session w' = session w.

(** Everything the event list of a merge can tell. *)
Record MergeOutcome (env : Env) (counts : JSMap.t) (w : World)
    (r : Result unit) (w' : World) (evs : list Event) : Prop := {
  merge_last : lastProcessedSignature w' = lastProcessedSignature w;
  merge_trace : trace w' = (trace w ++ evs)%list;
  merge_commands : Forall (fun e => isMergeCommand e = true) evs;
  merge_terminates : r <> OutOfFuel;
  merge_empty : counts = [] -> w' = w /\ r = Ok tt;
  merge_nothing :
    mergeCommits env counts (wallet_scores w) = false ->
    wallet_scores w' = wallet_scores w;
  merge_all :
    counts <> [] -> mergeCommits env counts (wallet_scores w) = true ->
    applyAll env counts (wallet_scores w) = Some (wallet_scores w') /\ r = Ok tt;
  merge_rolled_back :
    db_connect_ok env = true -> db_begin_ok env = true ->
    applyAll env counts (wallet_scores w) = None ->
    wallet_scores w' = wallet_scores w /\ session w' = None /\
    In DbRollback evs /\ ~ In DbCommit evs;
  merge_swallowed :
    counts <> [] -> db_connect_ok env = true -> db_rollback_ok env = true ->
    mergeCommits env counts (wallet_scores w) = false ->
    r = Ok tt /\ In DbRollback evs;
  merge_unreachable :
    counts <> [] -> db_connect_ok env = false -> exists e, r = Throw e
}.

(** The event is not a storage command. *)
Definition notStorage (e : Event) : Prop := isDbEvent e = false.

(** The three ways a cycle can go. *)
Inductive CycleOutcome (env : Env) (w w' : World) : Prop :=
| CycleIdle :
    sameState w w' ->
    onlyIssued notStorage w w' ->
    CycleOutcome env w w'
| CycleFastForward (sigs : list ConfirmedSignatureInfo) (s : ConfirmedSignatureInfo) :
    getSignaturesForAddress env SIGNATURE_FETCH_LIMIT (lastProcessedSignature w)
      = Normal (Some sigs) ->
    newSignaturesToProcess (lastProcessedSignature w) sigs = [] ->
    head sigs = Some s ->
    lastProcessedSignature w' = Some (signature s) ->
    wallet_scores w' = wallet_scores w ->
    session w' = session w ->
    onlyIssued notStorage w w' ->
    CycleOutcome env w w'
| CycleMerged (sigs : list ConfirmedSignatureInfo) (s : ConfirmedSignatureInfo)
    (counts : JSMap.t) (w1 w2 : World) (r : Result unit) (evs : list Event) :
    getSignaturesForAddress env SIGNATURE_FETCH_LIMIT (lastProcessedSignature w)
      = Normal (Some sigs) ->
    head (newSignaturesToProcess (lastProcessedSignature w) sigs) = Some s ->
    sameState w w1 ->
    onlyIssued notStorage w w1 ->
    positiveCounts counts ->
    mergeCounts env counts w1 = (r, w2) ->
    MergeOutcome env counts w1 r w2 evs ->
    wallet_scores w' = wallet_scores w2 ->
    session w' = session w2 ->
    trace w' = trace w2 ->
    (r = Ok tt -> lastProcessedSignature w' = Some (signature s)) ->
    ((exists e, r = Throw e) -> lastProcessedSignature w' = lastProcessedSignature w) ->
    CycleOutcome env w w'.

(** ** Scoreboard endpoint: [GET /api/scoreboard] (server.js, lines 85-120) *)

(** A JavaScript number as [parseInt] can produce it: [NaN], an integer,
    or an infinity (for digit strings beyond the range of a double). *)
Inductive JSNumber : Type :=
| NaN
| Num (n : Z)
| Infinity (negative : bool).

(** [v || 10]: [NaN] and zero are falsy. *)
Definition orTen (v : JSNumber) : JSNumber :=
  match v with
  | NaN => Num 10
  | Num n => if n =? 0 then Num 10 else Num n
  | Infinity negative => Infinity negative
  end.

Definition isNaN (v : JSNumber) : bool :=
  match v with
  | NaN => true
  | _ => false
  end.

(** [v <= 0]; any comparison with [NaN] is false. *)
Definition lessEqZero (v : JSNumber) : bool :=
  match v with
  | NaN => false
  | Num n => n <=? 0
  | Infinity negative => negative
  end.

(** The columns of [wallet_scores] that the scoreboard query reads. *)
Record ScoreRow := {
  wallet_address : string;
  interaction_count : Z;
  updated_at : Z
}.

(** [ORDER BY interaction_count DESC, updated_at ASC]: may row [a] be
    listed before row [b]? *)
Definition rowBeforeb (a b : ScoreRow) : bool :=
  (interaction_count b <? interaction_count a) ||
  ((interaction_count a =? interaction_count b) && (updated_at a <=? updated_at b)).

Definition rowBefore (a b : ScoreRow) : Prop := rowBeforeb a b = true.

#[global] Instance rowBefore_dec (a b : ScoreRow) : Decision (rowBefore a b).
Proof. unfold rowBefore. apply _. Defined.

(** The rows of the table: the committed counts, each with the time of
    its last update. *)
Definition tableRows (scores : gmap string Z) (updated_at_of : string -> Z)
  : list ScoreRow :=
  (fun kc : string * Z =>
     {| wallet_address := fst kc;
        interaction_count := snd kc;
        updated_at := updated_at_of (fst kc) |}) <$> map_to_list scores.

(** Range of the SQL type [BIGINT], the type of a LIMIT count. *)
Definition INT8_MAX : Z := 9223372036854775807.

(** [SELECT wallet_address, interaction_count FROM wallet_scores
     ORDER BY interaction_count DESC, updated_at ASC LIMIT $1].
    The engine rejects a limit that is not a non-negative integer in
    range.  Rows that tie on both sort keys come out in an order SQL leaves
    open; the model lists them in one of the permitted orders. *)
Definition selectTop (limit : JSNumber) (scores : gmap string Z)
    (updated_at_of : string -> Z) : option (list ScoreRow) :=
  match limit with
  | Num n =>
      if (0 <=? n) && (n <=? INT8_MAX)
      then Some (take (Z.to_nat n)
                      (merge_sort rowBefore (tableRows scores updated_at_of)))
      else None
  | _ => None
  end.

Record ScoreboardEntry := {
  rank : Z;
  walletAddress : string;
  score : Z
}.

Inductive ScoreboardBody : Type :=
| ScoreboardError (error : string)
| ScoreboardEmpty (message : string) (scoreboard : list ScoreboardEntry)
| ScoreboardList (scoreboard : list ScoreboardEntry).

Record ScoreboardResponse := {
  scoreboardStatus : Z;
  scoreboardBody : ScoreboardBody
}.

Section Scoreboard.

(** The built-in [parseInt] applied to [req.query.n] ([None] when the
    query has no [n]). *)
Variable parseInt : option string -> JSNumber.

(** The [updated_at] column, which the world does not carry. *)
Variable updated_at_of : string -> Z.

Variable env : Env.

(** [rows.map((row, index) => ({rank: index + 1, ...}))]. *)
Definition toScoreboard (rows : list ScoreRow) : list ScoreboardEntry :=
  imap (fun index row =>
          {| rank := Z.of_nat index + 1;
             walletAddress := wallet_address row;
             score := interaction_count row |}) rows.

(** The handler: the response, and the limits of the queries it sent to
    storage.  It reads the committed rows of the world and writes
    nothing. *)
Definition getScoreboard (n : option string) (w : World)
  : ScoreboardResponse * list JSNumber :=
  let topN := orTen (parseInt n) in
  if isNaN topN || lessEqZero topN then
    ({| scoreboardStatus := 400;
        scoreboardBody :=
          ScoreboardError
            "Invalid value for query parameter 'n', must be a positive integer." |},
     [])
  else
    match (if db_select_ok env
           then selectTop topN (wallet_scores w) updated_at_of
           else None) with
    | Some rows =>
        let scoreboard := toScoreboard rows in
        if Z.of_nat (length scoreboard) =? 0 then
          ({| scoreboardStatus := 200;
              scoreboardBody :=
                ScoreboardEmpty "Scoreboard is currently empty." [] |},
           [topN])
        else
          ({| scoreboardStatus := 200;
              scoreboardBody := ScoreboardList scoreboard |},
           [topN])
    | None =>
        ({| scoreboardStatus := 500;
            scoreboardBody :=
              ScoreboardError "Failed to generate scoreboard from database." |},
         [topN])
    end.

End Scoreboard.

(** ** Further vocabulary *)

(** The transaction bodies a run of the batch loop receives, in order;
    [None] when some request is rejected (or the bound is exhausted). *)
Fixpoint fetchedTransactions (env : Env) (fuel : nat) (i : Z)
    (novel : list ConfirmedSignatureInfo)
  : option (list (option ParsedTransactionWithMeta)) :=
  if i <? Z.of_nat (length novel) then
    match fuel with
    | O => None
    | S fuel' =>
        let batchSignatures :=
          map signature (JS.slice i (i + BATCH_FETCH_SIZE) novel) in
        if Z.of_nat (length batchSignatures) =? 0 then
          fetchedTransactions env fuel' (i + BATCH_FETCH_SIZE) novel
        else
          match getParsedTransactions env i batchSignatures with
          | Normal transactions =>
              match fetchedTransactions env fuel' (i + BATCH_FETCH_SIZE) novel with
              | Some rest => Some (transactions ++ rest)%list
              | None => None
              end
          | Abrupt _ => None
          end
    end
  else Some [].

(** Number of transactions of [txs] that the extractor credits to
    [wallet]. *)
Definition attributions (pid : PublicKey)
    (txs : list (option ParsedTransactionWithMeta)) (wallet : string) : Z :=
  Z.of_nat
    (length (List.filter
               (fun tx => bool_decide (attributedWallet pid tx = Some wallet)) txs)).

(** The batches asked of the RPC node, read off a list of events. *)
Definition requestedBatches (evs : list Event) : list (list string) :=
  omap (fun e => match e with
                 | RpcGetParsedTransactions batch => Some batch
                 | _ => None
                 end) evs.

(** The pauses taken, read off a list of events. *)
Definition pauses (evs : list Event) : list Z :=
  omap (fun e => match e with
                 | Sleep ms => Some ms
                 | _ => None
                 end) evs.



(** Number of interval expiries in a list of scheduler events. *)
Definition expiries (es : list SchedulerEvent) : nat :=
  length (List.filter (fun e => match e with
                                | IntervalElapsed => true
                                | _ => false
                                end) es).

(** Further sample data. *)
Module Scenario.

(** The RPC node serves [sigs]; the first half of every batch comes back
    as countable transactions of wallet [A], the rest as failed ones. *)
Definition mixed (sigs : list ConfirmedSignatureInfo) : Env :=
  {| getSignaturesForAddress := fun _ _ => Normal (Some sigs);
     getParsedTransactions :=
       fun _ batch =>
         Normal (imap (fun i _ =>
                         if (i <? 2)%nat
                         then Some (Sample.tx "A" [Sample.invoke Sample.program] None)
                         else Some Sample.failedTx) batch);
     db_connect_ok := true;
     db_begin_ok := true;
     db_statement_ok := fun _ _ => true;
     db_commit_ok := true;
     db_rollback_ok := true;
     db_select_ok := true |}.

(** The signature request itself is rejected. *)
Definition rpcDown : Env :=
  {| getSignaturesForAddress := fun _ _ => Abrupt "fetch failed";
     getParsedTransactions := fun _ _ => Normal [];
     db_connect_ok := true;
     db_begin_ok := true;
     db_statement_ok := fun _ _ => true;
     db_commit_ok := true;
     db_rollback_ok := true;
     db_select_ok := true |}.

(** Storage does not answer queries. *)
Definition storageDown : Env :=
  {| getSignaturesForAddress := fun _ _ => Normal (Some []);
     getParsedTransactions := fun _ _ => Normal [];
     db_connect_ok := false;
     db_begin_ok := false;
     db_statement_ok := fun _ _ => false;
     db_commit_ok := false;
     db_rollback_ok := false;
     db_select_ok := false |}.

Definition scores : gmap string Z := {[ "A" := 10; "B" := 10; "C" := 3 ]}.

(** [A] was updated at time 1, [B] at time 2, everything else at 5. *)
Definition updatedAt (wallet : string) : Z :=
  if String.eqb wallet "A" then 1
  else if String.eqb wallet "B" then 2 else 5.

(** A stand-in for [parseInt] on the texts used below. *)
Definition parseInt (n : option string) : JSNumber :=
  match n with
  | Some "2" => Num 2
  | Some "10" => Num 10
  | Some "0" => Num 0
  | Some "-3" => Num (-3)
  | _ => NaN
  end.

Definition table : World :=
  {| lastProcessedSignature := None; wallet_scores := scores;
     session := None; trace := [] |}.

End Scenario.

(** * Properties *)

(** ** Array helpers *)

Lemma findIndex_ge {A : Type} (p : A -> bool) (l : list A) :
  -1 <= JS.findIndex p l.
Proof.
  induction l as [|x l IH]; simpl; [lia|].
  destruct (p x); [lia|]. destruct (Z.ltb_spec (JS.findIndex p l) 0); lia.
Qed.

Lemma findIndex_none {A : Type} (p : A -> bool) (l : list A) :
  JS.findIndex p l = -1 <-> Forall (fun x => p x = false) l.
Proof.
  induction l as [|x l IH]; simpl.
  - split; [constructor | reflexivity].
  - destruct (p x) eqn:Hp.
    + split; [lia | intros Hall; inversion Hall; congruence].
    + pose proof (findIndex_ge p l).
      destruct (Z.ltb_spec (JS.findIndex p l) 0) as [Hlt|Hge].
      * split; [|reflexivity]. intros _. constructor; [exact Hp|].
        apply IH. lia.
      * split; [lia|]. intros Hall. inversion Hall as [|? ? _ Htl]; subst.
        apply IH in Htl. lia.
Qed.

(** When [findIndex] answers [k >= 0], position [k] holds the first
    element satisfying the predicate. *)
Lemma findIndex_found {A : Type} (p : A -> bool) (l : list A) (k : Z) :
  JS.findIndex p l = k -> 0 <= k ->
  exists x, l !! Z.to_nat k = Some x /\ p x = true /\
            forall (j : nat) y, (j < Z.to_nat k)%nat -> l !! j = Some y -> p y = false.
Proof.
  revert k. induction l as [|x l IH]; simpl; intros k Hk Hpos; [lia|].
  destruct (p x) eqn:Hp.
  - subst k. exists x. simpl. repeat split; auto. intros j y Hj. lia.
  - destruct (Z.ltb_spec (JS.findIndex p l) 0) as [Hlt|Hge]; [lia|].
    destruct (IH (JS.findIndex p l) eq_refl Hge) as (y & Hy & Hpy & Hfirst).
    subst k. exists y.
    replace (Z.to_nat (JS.findIndex p l + 1)) with (S (Z.to_nat (JS.findIndex p l))) by lia.
    simpl. repeat split; auto.
    intros [|j] z Hj Hz; simpl in Hz.
    + congruence.
    + apply (Hfirst j); [lia | exact Hz].
Qed.

(** The first position satisfying [p] is what [findIndex] answers. *)
Lemma findIndex_first {A : Type} (p : A -> bool) (l : list A) (k : nat) (x : A) :
  l !! k = Some x -> p x = true ->
  (forall (j : nat) y, (j < k)%nat -> l !! j = Some y -> p y = false) ->
  JS.findIndex p l = Z.of_nat k.
Proof.
  revert k. induction l as [|a l IH]; intros k Hk Hp Hfirst; [destruct k; discriminate|].
  simpl. destruct k as [|k]; simpl in Hk.
  - injection Hk as ->. rewrite Hp. reflexivity.
  - rewrite (Hfirst 0%nat a) by (simpl; auto; lia).
    rewrite (IH k Hk Hp).
    + destruct (Z.ltb_spec (Z.of_nat k) 0); lia.
    + intros j y Hj Hy. apply (Hfirst (S j)); [lia | exact Hy].
Qed.

Lemma slice_prefix {A : Type} (k : Z) (l : list A) :
  0 <= k -> JS.slice 0 k l = take (Z.to_nat k) l.
Proof.
  intros Hk. unfold JS.slice, JS.clamp. simpl.
  destruct (Z.ltb_spec k 0); [lia|].
  replace (Z.min 0 (Z.of_nat (length l))) with 0 by lia. simpl.
  rewrite Z.sub_0_r. change (Z.to_nat 0) with 0%nat. rewrite drop_0.
  destruct (Z.le_gt_cases k (Z.of_nat (length l))).
  - rewrite Z.min_l by lia. reflexivity.
  - rewrite Z.min_r by lia. rewrite Nat2Z.id.
    rewrite !take_ge by lia. reflexivity.
Qed.

Lemma truthy_Some (c : string) : JS.truthy (Some c) = true <-> c <> "".
Proof.
  simpl. destruct (String.eqb_spec c ""); simpl; split; congruence.
Qed.

(** ** C4: novelty filter *)

Lemma newSignaturesToProcess_absent cp window :
  JS.truthy cp = false -> newSignaturesToProcess cp window = window.
Proof. intros H. unfold newSignaturesToProcess. rewrite H. reflexivity. Qed.

Lemma newSignaturesToProcess_found c window k :
  c <> "" -> firstOccurrence c window k ->
  newSignaturesToProcess (Some c) window = take k window.
Proof.
  intros Hc [Hk Hfirst]. unfold newSignaturesToProcess.
  apply truthy_Some in Hc. rewrite Hc.
  rewrite list_lookup_fmap in Hk.
  destruct (window !! k) as [x|] eqn:Hx; [|discriminate].
  simpl in Hk. injection Hk as Hsig.
  rewrite (findIndex_first _ window k x Hx).
  - destruct (Z.ltb_spec (-1) (Z.of_nat k)); [|lia].
    rewrite slice_prefix by lia. rewrite Nat2Z.id. reflexivity.
  - apply String.eqb_eq. exact Hsig.
  - intros j y Hj Hy. apply String.eqb_neq. intros Heq.
    apply (Hfirst j Hj). rewrite list_lookup_fmap, Hy. simpl. congruence.
Qed.

Lemma newSignaturesToProcess_missing c window :
  ~ In c (map signature window) ->
  newSignaturesToProcess (Some c) window = window.
Proof.
  intros Hnot. unfold newSignaturesToProcess.
  destruct (JS.truthy (Some c)); [|reflexivity].
  assert (H : JS.findIndex (fun s => String.eqb (signature s) c) window = -1).
  { apply findIndex_none. apply List.Forall_forall. intros x Hx.
    apply String.eqb_neq. intros Heq. apply Hnot.
    apply in_map_iff. exists x. auto. }
  rewrite H. reflexivity.
Qed.

(** C4. For every fetch window and every checkpoint, the novelty filter
    returns the prefix of the window that precedes the checkpoint: when
    the checkpoint is present (a non-empty identifier) and first occurs at
    index [k], the result is the elements at indices [0, k) in order; when
    it does not occur in the window, or the checkpoint is absent (null or
    the empty string, which the guard treats alike), the result is the
    whole window. *)
Theorem C4_novelty_filter :
  forall (cp : option string) (window : list ConfirmedSignatureInfo),
    (forall c k, cp = Some c -> c <> "" -> firstOccurrence c window k ->
                 newSignaturesToProcess cp window = take k window) /\
    (forall c, cp = Some c -> ~ In c (map signature window) ->
               newSignaturesToProcess cp window = window) /\
    (JS.truthy cp = false -> newSignaturesToProcess cp window = window).
Proof.
  intros cp window. split; [|split].
  - intros c k -> Hc Hk. apply newSignaturesToProcess_found; assumption.
  - intros c -> Hnot. apply newSignaturesToProcess_missing; assumption.
  - apply newSignaturesToProcess_absent.
Qed.

(** The filter example of the specification: window [s5,s4,s3,s2,s1] with
    checkpoint [s3] yields [s5,s4]. *)
Lemma C4_novelty_filter_witness :
  firstOccurrence "s3" Sample.window 2 /\
  newSignaturesToProcess (Some "s3") Sample.window = [Sample.s5; Sample.s4].
Proof.
  assert (H : firstOccurrence "s3" Sample.window 2).
  { split; [reflexivity|].
    intros [|[|j]] Hj; simpl; [discriminate | discriminate | lia]. }
  split; [exact H|].
  exact (proj1 (C4_novelty_filter (Some "s3") Sample.window)
               "s3" 2%nat eq_refl ltac:(discriminate) H).
Defined.

(** ** The per-cycle aggregate *)

Lemma JSMap_get_set_eq k v m : JSMap.get k (JSMap.set k v m) = Some v.
Proof.
  induction m as [|[k' v'] m IH]; simpl.
  - rewrite String.eqb_refl. reflexivity.
  - destruct (String.eqb_spec k' k) as [->|Hne]; simpl.
    + rewrite String.eqb_refl. reflexivity.
    + destruct (String.eqb_spec k' k); [contradiction | exact IH].
Qed.

Lemma JSMap_get_set_ne k k' v m :
  k <> k' -> JSMap.get k' (JSMap.set k v m) = JSMap.get k' m.
Proof.
  intros Hne. induction m as [|[k0 v0] m IH]; simpl.
  - destruct (String.eqb_spec k k'); [contradiction | reflexivity].
  - destruct (String.eqb_spec k0 k) as [->|Hk0]; simpl.
    + destruct (String.eqb_spec k k'); [contradiction | reflexivity].
    + rewrite IH. reflexivity.
Qed.

Lemma orZero_default v : orZero v = default 0 v.
Proof.
  destruct v as [n|]; simpl; [|reflexivity].
  destruct (Z.eqb_spec n 0); congruence.
Qed.

Lemma equals_eq a b : equals a b = true <-> a = b.
Proof.
  unfold equals. rewrite String.eqb_eq.
  destruct a as [a], b as [b]; simpl. split; congruence.
Qed.

(** ** C5: interaction extractor *)

Lemma find_firstSigner keys a :
  JS.find signer keys = Some a <-> firstSigner keys a.
Proof.
  split.
  - induction keys as [|b keys IH]; simpl; [discriminate|].
    destruct (signer b) eqn:Hb.
    + intros [= ->]. exists [], keys. repeat split; auto.
    + intros H. destruct (IH H) as (before & after & -> & Ha & Hall).
      exists (b :: before), after. repeat split; auto.
  - intros (before & after & -> & Ha & Hall).
    induction Hall as [|b before Hb _ IH]; simpl.
    + rewrite Ha. reflexivity.
    + rewrite Hb. exact IH.
Qed.

Lemma firstSigner_unique keys a b :
  firstSigner keys a -> firstSigner keys b -> a = b.
Proof.
  intros Ha Hb. apply find_firstSigner in Ha, Hb. congruence.
Qed.

Lemma some_invokesProgram pid body :
  JS.some (fun ix => equals (programId ix) pid) (instructions (message body)) = true
  <-> invokesProgram pid body.
Proof.
  unfold invokesProgram. generalize (instructions (message body)) as ixs.
  induction ixs as [|ix ixs IH]; simpl.
  - split; [discriminate | intros (? & [] & _)].
  - destruct (equals (programId ix) pid) eqn:Heq.
    + split; [|reflexivity]. intros _. exists ix. split; [left; reflexivity|].
      apply equals_eq. exact Heq.
    + rewrite IH. split.
      * intros (ix' & Hin & Hp). exists ix'. split; [right; exact Hin | exact Hp].
      * intros (ix' & [->|Hin] & Hp).
        -- apply equals_eq in Hp. congruence.
        -- exists ix'. split; assumption.
Qed.

(** The code credits exactly the wallets singled out by the counting
    predicate. *)
Lemma attributedWallet_counted pid tx wallet :
  attributedWallet pid tx = Some wallet <-> counted pid tx wallet.
Proof.
  split.
  - unfold attributedWallet.
    destruct tx as [[[body|] [[[e|] f]|]]|]; try discriminate.
    destruct (JS.find signer (accountKeys (message body))) as [a|] eqn:Hfind;
      [|discriminate].
    destruct (JS.some _ _) eqn:Hsome; [|discriminate].
    intros [= <-].
    exists {| transaction := Some body; meta := Some {| err := None; fee := f |} |},
           body, {| err := None; fee := f |}, a.
    repeat split; auto.
    + apply some_invokesProgram. exact Hsome.
    + apply find_firstSigner. exact Hfind.
  - intros (t & body & m & a & -> & Hbody & Hmeta & Herr & Hinv & Hsig & <-).
    destruct t as [tr mt]. simpl in Hbody, Hmeta. subst tr mt.
    destruct m as [e f]. simpl in Herr. subst e. simpl.
    apply find_firstSigner in Hsig. rewrite Hsig.
    apply some_invokesProgram in Hinv. rewrite Hinv. reflexivity.
Qed.

Lemma countInteraction_attributed pid counts tx :
  countInteraction pid counts tx =
  match attributedWallet pid tx with
  | Some wallet => JSMap.set wallet (tally counts wallet + 1) counts
  | None => counts
  end.
Proof.
  unfold countInteraction, attributedWallet, tally.
  destruct tx as [[[body|] [[[e|] f]|]]|]; try reflexivity.
  destruct (JS.find signer (accountKeys (message body))) as [a|]; [|reflexivity].
  destruct (JS.some _ _); [|reflexivity].
  rewrite orZero_default. reflexivity.
Qed.

Lemma tally_countInteraction pid counts tx wallet :
  tally (countInteraction pid counts tx) wallet =
  tally counts wallet +
  (if bool_decide (attributedWallet pid tx = Some wallet) then 1 else 0).
Proof.
  rewrite countInteraction_attributed.
  destruct (attributedWallet pid tx) as [w0|] eqn:Hw.
  - case_bool_decide as Hd.
    + injection Hd as ->. unfold tally at 1. rewrite JSMap_get_set_eq. reflexivity.
    + unfold tally at 1. rewrite JSMap_get_set_ne by congruence.
      unfold tally. lia.
  - case_bool_decide; [discriminate | lia].
Qed.

(** C5. For every fetched transaction, the extractor adds one to a
    wallet's tally exactly when the body is present, carries no execution
    error, has an instruction that invokes the target program, and the
    wallet is its first signer account; otherwise that wallet's tally is
    left alone.  In particular a transaction with an execution error, a
    missing body, or no signer account leaves the whole aggregate
    unchanged, and the extractor is a total function: no outcome is an
    error. *)
Theorem C5_extractor_counts_iff :
  forall (pid : PublicKey) (counts : JSMap.t)
         (tx : option ParsedTransactionWithMeta),
    (forall wallet,
        (counted pid tx wallet ->
         tally (countInteraction pid counts tx) wallet = tally counts wallet + 1) /\
        (~ counted pid tx wallet ->
         tally (countInteraction pid counts tx) wallet = tally counts wallet)) /\
    (forall t m e, tx = Some t -> meta t = Some m -> err m = Some e ->
                   countInteraction pid counts tx = counts) /\
    (tx = None -> countInteraction pid counts tx = counts) /\
    (forall t, tx = Some t ->
               (transaction t = None \/ meta t = None) ->
               countInteraction pid counts tx = counts) /\
    (forall t body, tx = Some t -> transaction t = Some body ->
                    Forall (fun a => signer a = false) (accountKeys (message body)) ->
                    countInteraction pid counts tx = counts).
Proof.
  intros pid counts tx. repeat split.
  - intros H. apply attributedWallet_counted in H.
    rewrite tally_countInteraction. rewrite bool_decide_eq_true_2 by exact H.
    reflexivity.
  - intros H. rewrite tally_countInteraction.
    rewrite bool_decide_eq_false_2; [lia|].
    intros Hw. apply H. apply attributedWallet_counted. exact Hw.
  - intros [tr mt] [e0 f] e -> Hm He. simpl in Hm, He. subst mt e0.
    destruct tr; reflexivity.
  - intros ->. reflexivity.
  - intros [tr mt] -> [H|H]; simpl in H; subst.
    + reflexivity.
    + destruct tr; reflexivity.
  - intros [tr mt] body -> Hb Hall. simpl in Hb. subst tr.
    rewrite countInteraction_attributed. simpl.
    destruct mt as [[[e|] f]|]; try reflexivity.
    destruct (JS.find signer (accountKeys (message body))) as [a|] eqn:Hfind;
      [|reflexivity].
    apply find_firstSigner in Hfind.
    destruct Hfind as (before & after & Hkeys & Ha & _).
    rewrite Hkeys in Hall. apply Forall_app in Hall as [_ Hall].
    inversion Hall; congruence.
Qed.

(** A successful program-invoking transaction of [walletX] is counted for
    it, and the same transaction with an execution error is not. *)
Lemma C5_extractor_counts_iff_witness :
  counted Sample.program (Some Sample.goodTx) Sample.walletX /\
  tally (countInteraction Sample.program JSMap.empty (Some Sample.goodTx))
        Sample.walletX = 1 /\
  countInteraction Sample.program JSMap.empty (Some Sample.failedTx) = JSMap.empty.
Proof.
  assert (H : counted Sample.program (Some Sample.goodTx) Sample.walletX).
  { apply attributedWallet_counted. reflexivity. }
  pose proof (C5_extractor_counts_iff Sample.program JSMap.empty
                (Some Sample.goodTx)) as [Hiff _].
  pose proof (C5_extractor_counts_iff Sample.program JSMap.empty
                (Some Sample.failedTx)) as (_ & Herr & _).
  split; [exact H|]. split.
  - exact (proj1 (Hiff Sample.walletX) H).
  - exact (Herr Sample.failedTx {| err := Some "InstructionError"; fee := 5000 |}
                "InstructionError" eq_refl eq_refl eq_refl).
Defined.

(** ** Merge committer *)

Ltac run_monad :=
  unfold bind, ret, throw, emit, await, readLast, writeLast, setSession,
    setScores, try_catch, try_finally; simpl.

Lemma forEachEntry_run env entries :
  forall w t, session w = Some t ->
    exists r w' evs,
      forEachEntry env entries w = (r, w') /\
      lastProcessedSignature w' = lastProcessedSignature w /\
      wallet_scores w' = wallet_scores w /\
      trace w' = (trace w ++ evs)%list /\
      Forall (fun e => isUpsert e = true) evs /\
      match applyAll env entries t with
      | Some t' => r = Ok tt /\ session w' = Some t'
      | None => (exists e, r = Throw e) /\ is_Some (session w')
      end.
Proof.
  induction entries as [|[k c] entries IH]; intros w t Hs; simpl.
  - exists (Ok tt), w, []. rewrite app_nil_r. repeat split; auto.
  - unfold client_upsert. run_monad.
    destruct (db_statement_ok env k c).
    + rewrite Hs. simpl. destruct (upsert k c t) as [t'|]; simpl.
      * match goal with |- context [forEachEntry env entries ?w0] =>
          destruct (IH w0 t' eq_refl) as (r & w' & evs & Hrun & Hl & Hsc & Htr & Hev & Hres)
        end.
        rewrite Hrun. exists r, w', (DbUpsert k c :: evs).
        simpl in Hl, Hsc, Htr. rewrite <- app_assoc in Htr.
        repeat split; auto.
      * eexists _, _, [DbUpsert k c]. repeat split; simpl; eauto.
    + eexists _, _, [DbUpsert k c]. repeat split; simpl; eauto.
      all: rewrite ?Hs; eauto.
Qed.


Lemma size_cons_pos (p : string * Z) (m : JSMap.t) :
  (0 <? JSMap.size (p :: m)) = true.
Proof. unfold JSMap.size. simpl. reflexivity. Qed.

Lemma mergeCommits_true env counts t :
  mergeCommits env counts t = true <->
  db_connect_ok env = true /\ db_begin_ok env = true /\
  is_Some (applyAll env counts t) /\ db_commit_ok env = true.
Proof.
  unfold mergeCommits. rewrite !andb_true_iff, bool_decide_eq_true. tauto.
Qed.

Ltac contra_commits :=
  match goal with
  | H : mergeCommits _ _ _ = true |- _ =>
      apply mergeCommits_true in H; destruct H as (? & ? & [? ?] & ?); congruence
  end.

Ltac in_events :=
  simpl; rewrite ?in_app_iff; simpl; tauto.

Ltac not_in_events Hev :=
  let H := fresh in
  intros H; simpl in H; rewrite ?in_app_iff in H; simpl in H;
  repeat match goal with
         | H' : _ \/ _ |- _ => destruct H' as [H'|H']
         end;
  try discriminate; try contradiction.

Ltac merge_field :=
  intros; simpl in *;
  first
    [ congruence
    | reflexivity
    | contra_commits
    | (rewrite <- ?app_assoc; simpl; congruence)
    | (repeat match goal with H : trace _ = _ |- _ => rewrite H; clear H end;
       rewrite <- ?app_assoc; simpl; reflexivity)
    | (repeat constructor; rewrite ?Forall_app; repeat split; repeat constructor; assumption)
    | (repeat split; eauto; first [ reflexivity | congruence | in_events | idtac ]) ].

Lemma mergeCounts_outcome env counts w :
  exists r w' evs,
    mergeCounts env counts w = (r, w') /\ MergeOutcome env counts w r w' evs.
Proof.
  destruct counts as [|p counts].
  { exists (Ok tt), w, []. split; [reflexivity|].
    constructor; simpl; auto; try congruence; try (rewrite app_nil_r; reflexivity). }
  unfold mergeCounts. rewrite size_cons_pos.
  remember (p :: counts) as cs eqn:Hcs.
  assert (Hne : cs <> []) by (subst; discriminate). clear Hcs p counts.
  unfold db_getClient. run_monad.
  destruct (db_connect_ok env) eqn:Hc; simpl.
  2:{ eexists _, _, [DbConnect]. split; [reflexivity|].
      constructor; merge_field. }
  unfold client_BEGIN, client_ROLLBACK, client_release, client_COMMIT. run_monad.
  destruct (db_begin_ok env) eqn:Hb; simpl.
  2:{ destruct (db_rollback_ok env) eqn:Hr; simpl;
        (eexists _, _, [DbConnect; DbBegin; DbRollback; DbRelease];
         split; [reflexivity|]; constructor; merge_field). }
  match goal with |- context [forEachEntry env cs ?w0] =>
    destruct (forEachEntry_run env cs w0 (wallet_scores w) eq_refl)
      as (r & w1 & evs & Hrun & Hl & Hsc & Htr & Hev & Hres)
  end.
  rewrite Hrun. simpl in Hl, Hsc, Htr.
  assert (Hcmd : Forall (fun e => isMergeCommand e = true) evs).
  { eapply Forall_impl; [exact Hev|]. intros [] H; simpl in *; congruence. }
  assert (Hnocommit : ~ In DbCommit evs).
  { intros Hin. rewrite List.Forall_forall in Hev. apply Hev in Hin. discriminate. }
  destruct (applyAll env cs (wallet_scores w)) as [t'|] eqn:Ha.
  - destruct Hres as [-> Hs1].
    destruct (db_commit_ok env) eqn:Hk; simpl.
    + rewrite Hs1. simpl.
      assert (Ht : mergeCommits env cs (wallet_scores w) = true).
      { apply mergeCommits_true. rewrite Ha. eauto. }
      eexists _, _, ([DbConnect; DbBegin] ++ evs ++ [DbCommit; DbRelease])%list.
      split; [reflexivity|]. constructor; merge_field.
    + destruct (db_rollback_ok env) eqn:Hr; simpl;
        (eexists _, _, ([DbConnect; DbBegin] ++ evs ++ [DbCommit; DbRollback; DbRelease])%list;
         split; [reflexivity|]; constructor; merge_field).
  - destruct Hres as [[e ->] Hs1].
    destruct (db_rollback_ok env) eqn:Hr; simpl;
      (eexists _, _, ([DbConnect; DbBegin] ++ evs ++ [DbRollback; DbRelease])%list;
       split; [reflexivity|]; constructor; merge_field;
       try (not_in_events Hev)).
Qed.

(** C6. The merge committer is all-or-nothing.  With an empty aggregate
    it returns at once: the world, including the list of storage commands
    issued, is unchanged.  Otherwise the committed rows after the merge
    are either exactly the rows before it, or the rows before it with the
    whole set of increments applied, the latter only when connection,
    BEGIN, every statement and COMMIT all went through.  When a statement
    fails inside the transaction, ROLLBACK is issued, COMMIT is not, and
    the committed rows are those before the merge. *)
Theorem C6_merge_all_or_nothing :
  forall (env : Env) (counts : JSMap.t) (w : World),
    (counts = [] -> mergeCounts env counts w = (Ok tt, w)) /\
    (mergeCommits env counts (wallet_scores w) = false ->
     wallet_scores (snd (mergeCounts env counts w)) = wallet_scores w) /\
    (counts <> [] -> mergeCommits env counts (wallet_scores w) = true ->
     applyAll env counts (wallet_scores w) =
     Some (wallet_scores (snd (mergeCounts env counts w)))) /\
    (db_connect_ok env = true -> db_begin_ok env = true ->
     applyAll env counts (wallet_scores w) = None ->
     wallet_scores (snd (mergeCounts env counts w)) = wallet_scores w /\
     session (snd (mergeCounts env counts w)) = None /\
     exists evs,
       trace (snd (mergeCounts env counts w)) = (trace w ++ evs)%list /\
       In DbRollback evs /\ ~ In DbCommit evs).
Proof.
  intros env counts w.
  destruct (mergeCounts_outcome env counts w) as (r & w' & evs & Hrun & Hout).
  rewrite Hrun. simpl. repeat split.
  - intros Hc. destruct (merge_empty _ _ _ _ _ _ Hout Hc) as [-> ->]. reflexivity.
  - apply (merge_nothing _ _ _ _ _ _ Hout).
  - intros Hne Hc. apply (merge_all _ _ _ _ _ _ Hout Hne Hc).
  - apply (merge_rolled_back _ _ _ _ _ _ Hout); assumption.
  - apply (merge_rolled_back _ _ _ _ _ _ Hout); assumption.
  - exists evs. split; [apply (merge_trace _ _ _ _ _ _ Hout)|].
    apply (merge_rolled_back _ _ _ _ _ _ Hout); assumption.
Qed.

(** The statement for the second wallet fails: the increment of the first
    wallet, already executed inside the transaction, is not persisted. *)
Lemma C6_merge_all_or_nothing_witness :
  applyAll Sample.statementFailsForB [("A", 1); ("B", 2)] ∅ = None /\
  wallet_scores
    (snd (mergeCounts Sample.statementFailsForB [("A", 1); ("B", 2)] (boot ∅)))
  = ∅ /\
  mergeCounts Sample.statementFailsForB [] (boot ∅) = (Ok tt, boot ∅).
Proof.
  pose proof (C6_merge_all_or_nothing Sample.statementFailsForB
                [("A", 1); ("B", 2)] (boot ∅)) as (_ & _ & _ & Hfail).
  pose proof (C6_merge_all_or_nothing Sample.statementFailsForB [] (boot ∅))
    as (Hempty & _).
  assert (Ha : applyAll Sample.statementFailsForB [("A", 1); ("B", 2)]
                        (wallet_scores (boot ∅)) = None) by reflexivity.
  split; [exact Ha|]. split.
  - exact (proj1 (Hfail eq_refl eq_refl Ha)).
  - exact (Hempty eq_refl).
Defined.

(** ** Batch detail fetcher *)

Lemma slice_length {A : Type} (i n : Z) (l : list A) :
  0 <= i -> 0 <= n ->
  length (JS.slice i (i + n) l) =
  Z.to_nat (Z.min (i + n) (Z.of_nat (length l)) - Z.min i (Z.of_nat (length l))).
Proof.
  intros Hi Hn. unfold JS.slice, JS.clamp.
  destruct (Z.ltb_spec i 0); [lia|].
  destruct (Z.ltb_spec (i + n) 0); [lia|].
  rewrite length_take, length_drop. lia.
Qed.

Lemma batch_nonempty (i : Z) (novel : list ConfirmedSignatureInfo) :
  0 <= i -> i < Z.of_nat (length novel) ->
  (Z.of_nat (length (map signature (JS.slice i (i + BATCH_FETCH_SIZE) novel))) =? 0)
  = false.
Proof.
  intros Hi Hlt. rewrite length_map, slice_length by (unfold BATCH_FETCH_SIZE; lia).
  apply Z.eqb_neq. unfold BATCH_FETCH_SIZE. lia.
Qed.

Lemma positiveCounts_set k v m :
  1 <= v -> positiveCounts m -> positiveCounts (JSMap.set k v m).
Proof.
  intros Hv. unfold positiveCounts. induction m as [|[k' v'] m IH]; simpl; intros Hm.
  - repeat constructor. exact Hv.
  - inversion Hm as [|? ? Hhd Htl]; subst.
    destruct (String.eqb k' k); constructor; auto.
Qed.

Lemma tally_nonneg m k : positiveCounts m -> 0 <= tally m k.
Proof.
  unfold tally, positiveCounts. induction m as [|[k' v'] m IH]; simpl; intros Hm; [lia|].
  inversion Hm as [|? ? Hhd Htl]; subst. simpl in Hhd.
  destruct (String.eqb k' k); simpl; [lia | auto].
Qed.

Lemma positiveCounts_countInteraction pid m tx :
  positiveCounts m -> positiveCounts (countInteraction pid m tx).
Proof.
  intros Hm. rewrite countInteraction_attributed.
  destruct (attributedWallet pid tx) as [k|]; [|exact Hm].
  apply positiveCounts_set; [|exact Hm].
  pose proof (tally_nonneg m k Hm). lia.
Qed.

Lemma positiveCounts_countBatch pid txs :
  forall m, positiveCounts m -> positiveCounts (countBatch pid m txs).
Proof.
  unfold countBatch. induction txs as [|tx txs IH]; simpl; intros m Hm; [exact Hm|].
  apply IH. apply positiveCounts_countInteraction. exact Hm.
Qed.

(** The batch loop touches neither the checkpoint nor storage, never runs
    out of fuel when started with at least as much fuel as there are
    signatures left, and yields positive increments only. *)
Lemma fetchBatches_frame pid env novel :
  forall fuel i counts w,
    exists r w' evs,
      fetchBatches pid env fuel i novel counts w = (r, w') /\
      sameState w w' /\
      trace w' = (trace w ++ evs)%list /\
      Forall (fun e => isDbEvent e = false) evs /\
      (0 <= i -> Z.of_nat (length novel) - i <= Z.of_nat fuel -> r <> OutOfFuel) /\
      (positiveCounts counts -> forall c, r = Ok c -> positiveCounts c).
Proof.
  induction fuel as [|fuel IH]; intros i counts w; simpl.
  - destruct (Z.ltb_spec i (Z.of_nat (length novel))) as [Hlt|Hge].
    + exists OutOfFuel, w, []. rewrite app_nil_r.
      repeat split; auto; try lia. intros _ c [=].
    + exists (Ok counts), w, []. rewrite app_nil_r.
      repeat split; auto; try discriminate. intros Hp c [= <-]. exact Hp.
  - destruct (Z.ltb_spec i (Z.of_nat (length novel))) as [Hlt|Hge].
    2:{ exists (Ok counts), w, []. rewrite app_nil_r.
        repeat split; auto; try discriminate. intros Hp c [= <-]. exact Hp. }
    destruct (Z.of_nat (length (map signature (JS.slice i (i + BATCH_FETCH_SIZE) novel))) =? 0).
    { destruct (IH (i + BATCH_FETCH_SIZE) counts w)
        as (r & w' & evs & Hrun & Hst & Htr & Hev & Hfuel & Hpos).
      exists r, w', evs. repeat split; auto; try apply Hst.
      intros Hi Hf. apply Hfuel; unfold BATCH_FETCH_SIZE; lia. }
    run_monad.
    destruct (getParsedTransactions env i _) as [txs|e]; simpl.
    2:{ eexists _, _, [_]. repeat split; simpl; eauto; try discriminate. }
    destruct (BATCH_FETCH_SIZE <? Z.of_nat (length novel)); simpl.
    + match goal with |- context [fetchBatches pid env fuel ?i' novel ?c' ?w0] =>
        destruct (IH i' c' w0) as (r & w' & evs & Hrun & Hst & Htr & Hev & Hfuel & Hpos)
      end.
      rewrite Hrun. destruct Hst as (Hl & Hsc & Hse). simpl in *.
      eexists r, w', (_ :: _ :: evs)%list. repeat split; auto.
      * rewrite Htr. rewrite <- !app_assoc. reflexivity.
      * repeat constructor. exact Hev.
      * intros Hi Hf. apply Hfuel; unfold BATCH_FETCH_SIZE; lia.
      * intros Hp. apply Hpos. apply positiveCounts_countBatch. exact Hp.
    + match goal with |- context [fetchBatches pid env fuel ?i' novel ?c' ?w0] =>
        destruct (IH i' c' w0) as (r & w' & evs & Hrun & Hst & Htr & Hev & Hfuel & Hpos)
      end.
      rewrite Hrun. destruct Hst as (Hl & Hsc & Hse). simpl in *.
      eexists r, w', (_ :: evs)%list. repeat split; auto.
      * rewrite Htr. rewrite <- !app_assoc. reflexivity.
      * repeat constructor. exact Hev.
      * intros Hi Hf. apply Hfuel; unfold BATCH_FETCH_SIZE; lia.
      * intros Hp. apply Hpos. apply positiveCounts_countBatch. exact Hp.
Qed.

(** If the RPC call for the batch at offset [20 * j] is rejected, the
    batch loop as a whole is rejected (by that call or an earlier one). *)
Lemma fetchBatches_rpc_failure pid env novel (j : nat) e :
  BATCH_FETCH_SIZE * Z.of_nat j < Z.of_nat (length novel) ->
  getParsedTransactions env (BATCH_FETCH_SIZE * Z.of_nat j)
    (map signature
         (JS.slice (BATCH_FETCH_SIZE * Z.of_nat j)
                   (BATCH_FETCH_SIZE * Z.of_nat j + BATCH_FETCH_SIZE) novel))
  = Abrupt e ->
  forall (d i0 : nat) fuel counts w,
    j = (i0 + d)%nat ->
    Z.of_nat (length novel) - BATCH_FETCH_SIZE * Z.of_nat i0 <= Z.of_nat fuel ->
    exists e',
      fst (fetchBatches pid env fuel (BATCH_FETCH_SIZE * Z.of_nat i0) novel counts w)
      = Throw e'.
Proof.
  intros Hj Hthrow. unfold BATCH_FETCH_SIZE in Hj.
  induction d as [|d IH]; intros i0 fuel counts w Hsum Hfuel.
  - assert (i0 = j) by lia. subst i0.
    destruct fuel as [|fuel]; [unfold BATCH_FETCH_SIZE in *; lia|].
    simpl. destruct (Z.ltb_spec (BATCH_FETCH_SIZE * Z.of_nat j) (Z.of_nat (length novel)));
      [|unfold BATCH_FETCH_SIZE in *; lia].
    rewrite batch_nonempty by (unfold BATCH_FETCH_SIZE; lia).
    run_monad. rewrite Hthrow. simpl. eauto.
  - destruct fuel as [|fuel]; [unfold BATCH_FETCH_SIZE in *; lia|].
    simpl. destruct (Z.ltb_spec (BATCH_FETCH_SIZE * Z.of_nat i0) (Z.of_nat (length novel)));
      [|unfold BATCH_FETCH_SIZE in *; lia].
    rewrite batch_nonempty by (unfold BATCH_FETCH_SIZE; lia).
    run_monad.
    match goal with |- context [getParsedTransactions env ?a ?b] =>
      destruct (getParsedTransactions env a b) as [txs|e0]
    end; run_monad; [|eauto].
    replace (BATCH_FETCH_SIZE * Z.of_nat i0 + BATCH_FETCH_SIZE)
      with (BATCH_FETCH_SIZE * Z.of_nat (S i0)) by (unfold BATCH_FETCH_SIZE; lia).
    destruct (BATCH_FETCH_SIZE <? Z.of_nat (length novel)); simpl;
      apply IH; unfold BATCH_FETCH_SIZE in *; lia.
Qed.

(** ** The cycle as a whole *)

Lemma newSignaturesToProcess_nil cp : newSignaturesToProcess cp [] = [].
Proof. unfold newSignaturesToProcess. destruct (JS.truthy cp); reflexivity. Qed.

Lemma sameState_refl w : sameState w w.
Proof. repeat split. Qed.

Lemma onlyIssued_one (P : Event -> Prop) w w' e :
  trace w' = (trace w ++ [e])%list -> P e -> onlyIssued P w w'.
Proof. intros Ht He. exists [e]. split; [exact Ht | repeat constructor; exact He]. Qed.

Lemma assignNewest_head arr s w :
  head arr = Some s -> assignNewest arr w = writeLast (signature s) w.
Proof. destruct arr; simpl; [discriminate | intros [= ->]; reflexivity]. Qed.

Lemma length_zero_nil {A : Type} (l : list A) : Z.of_nat (length l) = 0 -> l = [].
Proof. destruct l; simpl; [reflexivity | lia]. Qed.

Lemma length_nonzero_head {A : Type} (l : list A) :
  Z.of_nat (length l) <> 0 -> exists x, head l = Some x.
Proof. destruct l; simpl; [lia | eauto]. Qed.

(** A cycle always settles normally, in one of three ways, and the first
    thing it does is to request the signatures up to the checkpoint held
    in memory. *)
Lemma processNewTransactions_outcome pid env w :
  exists w',
    processNewTransactions pid env w = (Ok tt, w') /\
    CycleOutcome env w w' /\
    exists evs,
      trace w' = (trace w ++ RpcGetSignaturesForAddress SIGNATURE_FETCH_LIMIT
                               (lastProcessedSignature w) :: evs)%list.
Proof.
  unfold processNewTransactions.
  unfold try_catch at 1. unfold bind at 1. unfold readLast at 1.
  unfold bind at 1. unfold emit at 1. unfold bind at 1. simpl.
  destruct (getSignaturesForAddress env SIGNATURE_FETCH_LIMIT (lastProcessedSignature w))
    as [[sigs|]|e] eqn:Hsig; simpl.
  3:{ eexists. split; [reflexivity|]. split; [|exists []; reflexivity].
      apply CycleIdle; [repeat split|].
      eapply onlyIssued_one; [reflexivity | reflexivity]. }
  2:{ eexists. split; [reflexivity|]. split; [|exists []; reflexivity].
      apply CycleIdle; [repeat split|].
      eapply onlyIssued_one; [reflexivity | reflexivity]. }
  destruct (Z.eqb_spec (Z.of_nat (length sigs)) 0) as [Hz|Hnz].
  { apply length_zero_nil in Hz. subst sigs. simpl. rewrite andb_false_r. simpl.
    eexists. split; [reflexivity|]. split; [|exists []; reflexivity].
    apply CycleIdle; [repeat split|].
    eapply onlyIssued_one; [reflexivity | reflexivity]. }
  set (novel := newSignaturesToProcess (lastProcessedSignature w) sigs).
  destruct (Z.eqb_spec (Z.of_nat (length novel)) 0) as [Hn|Hn].
  { destruct (Z.ltb_spec 0 (Z.of_nat (length sigs))); [|lia].
    destruct (length_nonzero_head sigs Hnz) as [s Hs].
    rewrite (assignNewest_head _ _ _ Hs). simpl.
    eexists. split; [reflexivity|]. split; [|exists []; reflexivity].
    eapply CycleFastForward; eauto.
    - apply length_zero_nil. exact Hn.
    - eapply onlyIssued_one; [reflexivity | reflexivity]. }
  destruct (length_nonzero_head novel Hn) as [s Hs].
  unfold bind at 1.
  match goal with |- context [fetchBatches pid env ?f ?i novel ?c ?w0] =>
    destruct (fetchBatches_frame pid env novel f i c w0)
      as (r & w1 & evs & Hrun & Hst & Htr & Hev & Hfuel & Hpos)
  end.
  rewrite Hrun. destruct Hst as (Hl1 & Hsc1 & Hse1). simpl in Hl1, Hsc1, Hse1, Htr.
  rewrite <- app_assoc in Htr. simpl in Htr.
  assert (Hiss : onlyIssued notStorage w w1).
  { exists (RpcGetSignaturesForAddress SIGNATURE_FETCH_LIMIT (lastProcessedSignature w) :: evs).
    split; [exact Htr|].
    constructor; [reflexivity | exact Hev]. }
  destruct r as [counts|e|].
  3:{ exfalso. apply Hfuel; [lia | lia | reflexivity]. }
  2:{ simpl. eexists. split; [reflexivity|]. split; [|exists evs; exact Htr].
      apply CycleIdle; [|exact Hiss].
      repeat split; assumption. }
  unfold bind at 1.
  destruct (mergeCounts_outcome env counts w1) as (r & w2 & mevs & Hm & Hout).
  rewrite Hm.
  assert (Hp : positiveCounts counts) by (apply Hpos; [constructor | reflexivity]).
  assert (Htr2 : trace w2 =
                 (trace w ++ RpcGetSignaturesForAddress SIGNATURE_FETCH_LIMIT
                               (lastProcessedSignature w) :: evs ++ mevs)%list).
  { rewrite (merge_trace _ _ _ _ _ _ Hout), Htr, <- app_assoc. reflexivity. }
  destruct r as [[]|e|].
  3:{ exfalso. apply (merge_terminates _ _ _ _ _ _ Hout). reflexivity. }
  - rewrite (assignNewest_head _ _ _ Hs). simpl. eexists. split; [reflexivity|].
    split; [|exists (evs ++ mevs)%list; exact Htr2].
    eapply (CycleMerged env w _ sigs s counts w1 w2 (Ok tt) mevs); eauto.
    + repeat split; assumption.
    + intros [e [=]].
  - simpl. eexists. split; [reflexivity|].
    split; [|exists (evs ++ mevs)%list; exact Htr2].
    eapply (CycleMerged env w _ sigs s counts w1 w2 (Throw e) mevs); eauto.
    + repeat split; assumption.
    + intros [=].
    + intros _. rewrite (merge_last _ _ _ _ _ _ Hout). exact Hl1.
Qed.

Lemma cycle_outcome pid env w : CycleOutcome env w (cycle pid env w).
Proof.
  destruct (processNewTransactions_outcome pid env w) as (w' & Hrun & Hout & _).
  unfold cycle. rewrite Hrun. exact Hout.
Qed.

(** The request a cycle opens with carries the in-memory checkpoint. *)
Lemma cycle_request pid env w :
  exists evs,
    trace (cycle pid env w) =
    (trace w ++ RpcGetSignaturesForAddress SIGNATURE_FETCH_LIMIT
                  (lastProcessedSignature w) :: evs)%list.
Proof.
  destruct (processNewTransactions_outcome pid env w) as (w' & Hrun & _ & Hreq).
  unfold cycle. rewrite Hrun. exact Hreq.
Qed.

(** A cycle never rejects and never exhausts the loop bound of the model. *)
Lemma processNewTransactions_settles pid env w :
  fst (processNewTransactions pid env w) = Ok tt.
Proof.
  destruct (processNewTransactions_outcome pid env w) as (w' & Hrun & _).
  rewrite Hrun. reflexivity.
Qed.

(** The world right after the signature request has been sent. *)
Lemma cycle_after_fetch pid env w sigs :
  getSignaturesForAddress env SIGNATURE_FETCH_LIMIT (lastProcessedSignature w)
    = Normal (Some sigs) ->
  sigs <> [] ->
  exists w0,
    sameState w w0 /\
    trace w0 = (trace w ++ [RpcGetSignaturesForAddress SIGNATURE_FETCH_LIMIT
                              (lastProcessedSignature w)])%list /\
    processNewTransactions pid env w =
    let novel := newSignaturesToProcess (lastProcessedSignature w) sigs in
    if Z.of_nat (length novel) =? 0 then assignNewest sigs w0
    else
      try_catch
        (let* walletInteractionCounts :=
           fetchBatches pid env (length novel) 0 novel JSMap.empty in
         let* _ := mergeCounts env walletInteractionCounts in
         assignNewest novel)
        (fun error => ret tt) w0.
Proof.
  intros Hsig Hne.
  exists {| lastProcessedSignature := lastProcessedSignature w;
            wallet_scores := wallet_scores w;
            session := session w;
            trace := (trace w ++ [RpcGetSignaturesForAddress SIGNATURE_FETCH_LIMIT
                                    (lastProcessedSignature w)])%list |}.
  split; [|split]; cycle 2.
  - unfold processNewTransactions.
    unfold try_catch at 1. unfold bind at 1. unfold readLast at 1.
    unfold bind at 1. unfold emit at 1. unfold bind at 1. simpl.
    rewrite Hsig. simpl.
    destruct sigs as [|s sigs]; [congruence|].
    change (Z.of_nat (length (s :: sigs)) =? 0) with false. cbv iota.
    change (0 <? Z.of_nat (length (s :: sigs))) with true. cbv iota.
    destruct (Z.of_nat (length (newSignaturesToProcess (lastProcessedSignature w) (s :: sigs))) =? 0).
    + simpl. reflexivity.
    + unfold try_catch. reflexivity.
  - repeat split.
  - reflexivity.
Qed.

(** ** C7: RPC failure while fetching details *)

(** C7. Whenever the request for the transaction details of some chunk of
    the novel set is rejected, the cycle ends with the checkpoint, the
    committed counters and the storage session exactly as they were, and
    without having sent a single command to storage: the increments
    aggregated from earlier chunks are dropped with the aggregate.  The
    next cycle therefore starts from the same checkpoint and asks for the
    same window. *)
Theorem C7_rpc_failure_aborts_cycle :
  forall (pid : PublicKey) (env : Env) (w : World)
         (sigs : list ConfirmedSignatureInfo) (j : nat) (e : string),
    getSignaturesForAddress env SIGNATURE_FETCH_LIMIT (lastProcessedSignature w)
      = Normal (Some sigs) ->
    BATCH_FETCH_SIZE * Z.of_nat j
      < Z.of_nat (length (newSignaturesToProcess (lastProcessedSignature w) sigs)) ->
    getParsedTransactions env (BATCH_FETCH_SIZE * Z.of_nat j)
      (map signature
           (JS.slice (BATCH_FETCH_SIZE * Z.of_nat j)
                     (BATCH_FETCH_SIZE * Z.of_nat j + BATCH_FETCH_SIZE)
                     (newSignaturesToProcess (lastProcessedSignature w) sigs)))
      = Abrupt e ->
    lastProcessedSignature (cycle pid env w) = lastProcessedSignature w /\
    wallet_scores (cycle pid env w) = wallet_scores w /\
    session (cycle pid env w) = session w /\
    onlyIssued notStorage w (cycle pid env w) /\
    (forall env' : Env,
        exists evs,
          trace (cycle pid env' (cycle pid env w)) =
          (trace (cycle pid env w)
             ++ RpcGetSignaturesForAddress SIGNATURE_FETCH_LIMIT
                  (lastProcessedSignature w) :: evs)%list).
Proof.
  intros pid env w sigs j e Hsig Hj Hthrow.
  assert (Hnext : lastProcessedSignature (cycle pid env w) = lastProcessedSignature w ->
                  forall env' : Env,
                    exists evs,
                      trace (cycle pid env' (cycle pid env w)) =
                      (trace (cycle pid env w)
                         ++ RpcGetSignaturesForAddress SIGNATURE_FETCH_LIMIT
                              (lastProcessedSignature w) :: evs)%list).
  { intros Hl env'. rewrite <- Hl. apply cycle_request. }
  revert Hnext.
  assert (Hne : sigs <> []).
  { intros ->. rewrite newSignaturesToProcess_nil in Hj.
    unfold BATCH_FETCH_SIZE in Hj. simpl in Hj. lia. }
  destruct (cycle_after_fetch pid env w sigs Hsig Hne) as (w0 & Hst0 & Htr0 & Hrun).
  unfold cycle. rewrite Hrun. clear Hrun. cbv zeta.
  set (novel := newSignaturesToProcess (lastProcessedSignature w) sigs) in *.
  destruct (Z.eqb_spec (Z.of_nat (length novel)) 0) as [Hz|Hnz].
  { unfold BATCH_FETCH_SIZE in Hj. lia. }
  destruct (fetchBatches_frame pid env novel (length novel) 0 JSMap.empty w0)
    as (r & w1 & evs & Hfb & Hst1 & Htr1 & Hev & _ & _).
  destruct (fetchBatches_rpc_failure pid env novel j e Hj Hthrow j 0%nat
              (length novel) JSMap.empty w0) as [e' He'].
  { lia. }
  { unfold BATCH_FETCH_SIZE. lia. }
  change (BATCH_FETCH_SIZE * Z.of_nat 0) with 0 in He'.
  rewrite Hfb in He'. simpl in He'. subst r.
  unfold try_catch, bind. rewrite Hfb. simpl.
  destruct Hst0 as (Hl0 & Hs0 & Hse0). destruct Hst1 as (Hl1 & Hs1 & Hse1).
  intros Hnext.
  split; [congruence|]. split; [congruence|]. split; [congruence|]. split.
  - exists (RpcGetSignaturesForAddress SIGNATURE_FETCH_LIMIT (lastProcessedSignature w) :: evs).
    split.
    + rewrite Htr1, Htr0, <- app_assoc. reflexivity.
    + constructor; [reflexivity | exact Hev].
  - apply Hnext. congruence.
Qed.

(** Twenty-one novel signatures: the first chunk is fetched and counted,
    the request for the second chunk is rejected, and nothing of the
    cycle survives. *)
Lemma C7_rpc_failure_aborts_cycle_witness :
  lastProcessedSignature
    (cycle Sample.program (Sample.rpcFailsAt 20 Sample.longWindow) (boot ∅)) = None /\
  wallet_scores
    (cycle Sample.program (Sample.rpcFailsAt 20 Sample.longWindow) (boot ∅)) = ∅.
Proof.
  pose proof (C7_rpc_failure_aborts_cycle Sample.program
                (Sample.rpcFailsAt 20 Sample.longWindow) (boot ∅)
                Sample.longWindow 1%nat "429 Too Many Requests"
                eq_refl eq_refl eq_refl) as (Hl & Hs & _).
  split; [exact Hl | exact Hs].
Defined.

(** ** C8: checkpoint-only fast-forward *)

(** C8. Whenever the fetch window is non-empty and the novelty filter
    leaves nothing, the cycle sets the checkpoint to the identifier of the
    newest fetched entry, leaves every committed counter and the storage
    session untouched, and its only I/O is the signature request. *)
Theorem C8_fast_forward :
  forall (pid : PublicKey) (env : Env) (w : World)
         (sigs : list ConfirmedSignatureInfo),
    getSignaturesForAddress env SIGNATURE_FETCH_LIMIT (lastProcessedSignature w)
      = Normal (Some sigs) ->
    sigs <> [] ->
    newSignaturesToProcess (lastProcessedSignature w) sigs = [] ->
    lastProcessedSignature (cycle pid env w) = signature <$> head sigs /\
    wallet_scores (cycle pid env w) = wallet_scores w /\
    session (cycle pid env w) = session w /\
    trace (cycle pid env w) =
      (trace w ++ [RpcGetSignaturesForAddress SIGNATURE_FETCH_LIMIT
                     (lastProcessedSignature w)])%list.
Proof.
  intros pid env w sigs Hsig Hne Hnovel.
  destruct (cycle_after_fetch pid env w sigs Hsig Hne) as (w0 & Hst0 & Htr0 & Hrun).
  unfold cycle. rewrite Hrun. clear Hrun. cbv zeta. rewrite Hnovel. simpl.
  destruct sigs as [|s sigs]; [congruence|]. simpl.
  destruct Hst0 as (Hl0 & Hs0 & Hse0). repeat split; assumption.
Qed.

(** Checkpoint [s5] and window [s5,s4,s3,s2,s1]: nothing is novel, the
    checkpoint is (re)set to [s5] and no counter changes. *)
Lemma C8_fast_forward_witness :
  lastProcessedSignature
    (cycle Sample.program (Sample.healthy Sample.window)
           {| lastProcessedSignature := Some "s5"; wallet_scores := {[ "A" := 7 ]};
              session := None; trace := [] |}) = Some "s5" /\
  wallet_scores
    (cycle Sample.program (Sample.healthy Sample.window)
           {| lastProcessedSignature := Some "s5"; wallet_scores := {[ "A" := 7 ]};
              session := None; trace := [] |}) = {[ "A" := 7 ]}.
Proof.
  pose proof (C8_fast_forward Sample.program (Sample.healthy Sample.window)
                {| lastProcessedSignature := Some "s5";
                   wallet_scores := {[ "A" := 7 ]};
                   session := None; trace := [] |}
                Sample.window eq_refl ltac:(discriminate) eq_refl) as (Hl & Hs & _).
  split; [exact Hl | exact Hs].
Defined.

(** ** C9: persisted counts only grow *)

Lemma persistedChange_refl o : persistedChange o o.
Proof. left. reflexivity. Qed.

Lemma persistedChange_trans a b c :
  persistedChange a b -> persistedChange b c -> persistedChange a c.
Proof.
  intros [->|[(-> & x & Hx & ->)|(old & x & -> & Hx & ->)]] Hbc; [exact Hbc| |].
  - destruct Hbc as [->|[(Hb & _)|(old & y & Hb & Hy & ->)]].
    + right. left. eauto.
    + discriminate.
    + injection Hb as <-. right. left. split; [reflexivity|].
      exists (x + y). split; [lia | reflexivity].
  - destruct Hbc as [->|[(Hb & _)|(old' & y & Hb & Hy & ->)]].
    + right. right. eauto.
    + discriminate.
    + injection Hb as <-. right. right.
      exists old, (x + y). repeat split; [lia | f_equal; lia].
Qed.

Lemma persistedChange_monotone before after v :
  persistedChange before after -> before = Some v ->
  exists v', after = Some v' /\ v <= v'.
Proof.
  intros [->|[(-> & _)|(old & c & -> & Hc & ->)]] Hb.
  - exists v. split; [exact Hb | lia].
  - discriminate.
  - injection Hb as ->. exists (v + c). split; [reflexivity | lia].
Qed.

(** One accepted statement creates a row with its positive count or adds
    that count to the row; every other row is untouched. *)
Lemma upsert_change k c t t' :
  0 < c -> upsert k c t = Some t' ->
  forall k', persistedChange (t !! k') (t' !! k').
Proof.
  intros Hc Hu k'. unfold upsert in Hu.
  destruct (WALLET_ADDRESS_WIDTH <? String.length k)%nat; [discriminate|].
  destruct (negb (in_int4 c)); [discriminate|].
  destruct (t !! k) as [old|] eqn:Hk.
  - destruct (in_int4 (old + c)); [|discriminate]. injection Hu as <-.
    destruct (decide (k = k')) as [<-|Hne].
    + rewrite lookup_insert_eq, Hk. right. right. exists old, c. auto.
    + rewrite lookup_insert_ne by exact Hne. left. reflexivity.
  - injection Hu as <-.
    destruct (decide (k = k')) as [<-|Hne].
    + rewrite lookup_insert_eq, Hk. right. left. eauto.
    + rewrite lookup_insert_ne by exact Hne. left. reflexivity.
Qed.

Lemma applyAll_change env counts :
  positiveCounts counts ->
  forall t t', applyAll env counts t = Some t' ->
               forall k, persistedChange (t !! k) (t' !! k).
Proof.
  unfold positiveCounts.
  induction counts as [|[k0 c] counts IH]; simpl; intros Hp t t' Ha k.
  - injection Ha as <-. apply persistedChange_refl.
  - inversion Hp as [|? ? Hc Hrest]; subst. simpl in Hc.
    destruct (db_statement_ok env k0 c); [|discriminate].
    destruct (upsert k0 c t) as [t1|] eqn:Hu; [|discriminate].
    eapply persistedChange_trans.
    + eapply upsert_change; [|exact Hu]. lia.
    + apply (IH Hrest t1 t' Ha).
Qed.

Lemma merge_change env counts w r w' evs :
  positiveCounts counts ->
  MergeOutcome env counts w r w' evs ->
  forall k, persistedChange (wallet_scores w !! k) (wallet_scores w' !! k).
Proof.
  intros Hp Hout k.
  destruct counts as [|p counts].
  { destruct (merge_empty _ _ _ _ _ _ Hout eq_refl) as [-> _].
    apply persistedChange_refl. }
  destruct (mergeCommits env (p :: counts) (wallet_scores w)) eqn:Hc.
  - destruct (merge_all _ _ _ _ _ _ Hout ltac:(discriminate) Hc) as [Ha _].
    eapply applyAll_change; eassumption.
  - rewrite (merge_nothing _ _ _ _ _ _ Hout Hc). apply persistedChange_refl.
Qed.

Lemma cycle_change pid env w k :
  persistedChange (wallet_scores w !! k) (wallet_scores (cycle pid env w) !! k).
Proof.
  destruct (cycle_outcome pid env w)
    as [[_ [Hs _]] _
       | sigs s _ _ _ _ Hs _ _
       | sigs s counts w1 w2 r evs _ _ [_ [Hs1 _]] _ Hp _ Hout Hs _ _ _ _].
  - rewrite Hs. apply persistedChange_refl.
  - rewrite Hs. apply persistedChange_refl.
  - rewrite Hs, <- Hs1. eapply merge_change; eassumption.
Qed.

Lemma runCycles_change pid envs :
  forall w k,
    persistedChange (wallet_scores w !! k) (wallet_scores (runCycles pid envs w) !! k).
Proof.
  unfold runCycles.
  induction envs as [|env envs IH]; intros w k; simpl.
  - apply persistedChange_refl.
  - eapply persistedChange_trans; [apply (cycle_change pid env w k) | apply IH].
Qed.

(** C9. For every wallet and every sequence of cycles, whatever the RPC
    node and storage answer, the wallet's committed interaction count
    after the cycles is its count before them, or a row newly created
    with a positive count, or the old count plus a positive amount.  A
    count that exists therefore still exists afterwards and is not
    smaller: it never decreases and is never reset. *)
Theorem C9_counts_monotone :
  forall (pid : PublicKey) (envs : list Env) (w : World) (wallet : string),
    persistedChange (wallet_scores w !! wallet)
                    (wallet_scores (runCycles pid envs w) !! wallet) /\
    (forall v, wallet_scores w !! wallet = Some v ->
               exists v', wallet_scores (runCycles pid envs w) !! wallet = Some v' /\
                          v <= v').
Proof.
  intros pid envs w wallet. split.
  - apply runCycles_change.
  - intros v Hv. eapply persistedChange_monotone; [apply runCycles_change | exact Hv].
Qed.

(** Two healthy cycles over a table that already credits [walletX] with
    7: the count is still there and has not shrunk. *)
Lemma C9_counts_monotone_witness :
  exists v',
    wallet_scores
      (runCycles Sample.program
                 [Sample.healthy Sample.window; Sample.commitFails Sample.window]
                 (boot {[ Sample.walletX := 7 ]})) !! Sample.walletX = Some v' /\
    7 <= v'.
Proof.
  exact (proj2 (C9_counts_monotone Sample.program
                  [Sample.healthy Sample.window; Sample.commitFails Sample.window]
                  (boot {[ Sample.walletX := 7 ]}) Sample.walletX)
               7 eq_refl).
Defined.

(** ** C1: ordering of merge and checkpoint advance *)

(** Lines 137-162 on a storage failure inside the transaction: the
    exception is caught, the transaction rolled back, and execution falls
    through to the assignment of the checkpoint. *)
Lemma storage_failure_swallowed env counts novel s w :
  counts <> [] -> head novel = Some s ->
  db_connect_ok env = true -> db_rollback_ok env = true ->
  mergeCommits env counts (wallet_scores w) = false ->
  exists w',
    (let* _ := mergeCounts env counts in assignNewest novel) w = (Ok tt, w') /\
    lastProcessedSignature w' = Some (signature s) /\
    wallet_scores w' = wallet_scores w.
Proof.
  intros Hne Hs Hc Hr Hm.
  destruct (mergeCounts_outcome env counts w) as (r & w1 & evs & Hrun & Hout).
  destruct (merge_swallowed _ _ _ _ _ _ Hout Hne Hc Hr Hm) as [-> _].
  unfold bind. rewrite Hrun. rewrite (assignNewest_head _ _ _ Hs). simpl.
  eexists. split; [reflexivity|]. simpl. split; [reflexivity|].
  apply (merge_nothing _ _ _ _ _ _ Hout Hm).
Qed.

(** The sibling path: when the connection itself cannot be obtained, the
    exception leaves the block and the checkpoint assignment is skipped. *)
Lemma connect_failure_propagates env counts novel w :
  counts <> [] -> db_connect_ok env = false ->
  exists e w',
    (let* _ := mergeCounts env counts in assignNewest novel) w = (Throw e, w') /\
    lastProcessedSignature w' = lastProcessedSignature w /\
    wallet_scores w' = wallet_scores w.
Proof.
  intros Hne Hc.
  destruct (mergeCounts_outcome env counts w) as (r & w1 & evs & Hrun & Hout).
  destruct (merge_unreachable _ _ _ _ _ _ Hout Hne Hc) as [e ->].
  unfold bind. rewrite Hrun. exists e, w1. split; [reflexivity|].
  split; [apply (merge_last _ _ _ _ _ _ Hout)|].
  apply (merge_nothing _ _ _ _ _ _ Hout).
  unfold mergeCommits. rewrite Hc. reflexivity.
Qed.

(** C1, evaluated where it breaks.  Cold start, window [s5,...,s1], five
    countable transactions of [walletX], and a storage whose COMMIT fails:
    the transaction is rolled back and no counter is written, yet the
    checkpoint moves to [s5]; the next cycle, with storage healthy again,
    finds nothing novel and the five interactions are never counted.  With
    a healthy storage the same cycle would have stored 5, and with an
    unreachable storage the checkpoint would have stayed absent. *)
Theorem C1_commit_failure_advances_checkpoint :
  lastProcessedSignature (boot ∅) = None /\
  lastProcessedSignature
    (cycle Sample.program (Sample.commitFails Sample.window) (boot ∅)) = Some "s5" /\
  wallet_scores
    (cycle Sample.program (Sample.commitFails Sample.window) (boot ∅))
    !! Sample.walletX = None /\
  trace (cycle Sample.program (Sample.commitFails Sample.window) (boot ∅)) =
    [RpcGetSignaturesForAddress 100 None;
     RpcGetParsedTransactions ["s5"; "s4"; "s3"; "s2"; "s1"];
     DbConnect; DbBegin; DbUpsert Sample.walletX 5; DbCommit; DbRollback; DbRelease] /\
  wallet_scores
    (cycle Sample.program (Sample.healthy Sample.window)
       (cycle Sample.program (Sample.commitFails Sample.window) (boot ∅)))
    !! Sample.walletX = None /\
  wallet_scores
    (cycle Sample.program (Sample.healthy Sample.window) (boot ∅))
    !! Sample.walletX = Some 5 /\
  lastProcessedSignature
    (cycle Sample.program (Sample.connectFails Sample.window) (boot ∅)) = None.
Proof. vm_compute. repeat split. Qed.

(** ** C2: where the checkpoint lives *)

Lemma onlyIssued_weaken (P Q : Event -> Prop) w w' :
  (forall e, P e -> Q e) -> onlyIssued P w w' -> onlyIssued Q w w'.
Proof.
  intros HPQ (evs & Ht & Hall). exists evs. split; [exact Ht|].
  eapply Forall_impl; [exact Hall | exact HPQ].
Qed.

Lemma onlyIssued_trans (P : Event -> Prop) w1 w2 w3 :
  onlyIssued P w1 w2 -> onlyIssued P w2 w3 -> onlyIssued P w1 w3.
Proof.
  intros (e1 & Ht1 & H1) (e2 & Ht2 & H2). exists (e1 ++ e2)%list. split.
  - rewrite Ht2, Ht1, app_assoc. reflexivity.
  - apply Forall_app. split; assumption.
Qed.

(** Every storage command of a cycle belongs to the merge of counters. *)
Lemma cycle_storage_commands pid env w :
  onlyIssued (fun e => isDbEvent e = true -> isMergeCommand e = true)
             w (cycle pid env w).
Proof.
  destruct (cycle_outcome pid env w)
    as [_ Hi
       | sigs s _ _ _ _ _ _ Hi
       | sigs s counts w1 w2 r evs _ _ _ Hi _ _ Hout _ _ Htr _ _].
  - eapply onlyIssued_weaken; [|exact Hi]. unfold notStorage. intros e H1 H2. congruence.
  - eapply onlyIssued_weaken; [|exact Hi]. unfold notStorage. intros e H1 H2. congruence.
  - eapply onlyIssued_trans.
    + eapply onlyIssued_weaken; [|exact Hi]. unfold notStorage. intros e H1 H2. congruence.
    + exists evs. split.
      * rewrite Htr. apply (merge_trace _ _ _ _ _ _ Hout).
      * eapply Forall_impl; [apply (merge_commands _ _ _ _ _ _ Hout)|].
        intros e H _. exact H.
Qed.

(** C2 as stated fails.  After a healthy first cycle the checkpoint is
    [s5] and [walletX] stands at 5; a restart keeps the table but the
    checkpoint is absent again, so the next cycle over the same window
    counts the same five transactions a second time. *)
Lemma C2_checkpoint_lost_on_restart :
  lastProcessedSignature
    (cycle Sample.program (Sample.healthy Sample.window) (boot ∅)) = Some "s5" /\
  lastProcessedSignature
    (restart (cycle Sample.program (Sample.healthy Sample.window) (boot ∅))) = None /\
  wallet_scores
    (restart (cycle Sample.program (Sample.healthy Sample.window) (boot ∅)))
    !! Sample.walletX = Some 5 /\
  wallet_scores
    (cycle Sample.program (Sample.healthy Sample.window)
       (restart (cycle Sample.program (Sample.healthy Sample.window) (boot ∅))))
    !! Sample.walletX = Some 10 /\
  ~ (forall w, lastProcessedSignature (restart w) = lastProcessedSignature w).
Proof.
  split; [vm_compute; reflexivity|].
  split; [vm_compute; reflexivity|].
  split; [vm_compute; reflexivity|].
  split; [vm_compute; reflexivity|].
  intros H.
  specialize (H {| lastProcessedSignature := Some "s5"; wallet_scores := ∅;
                   session := None; trace := [] |}).
  discriminate H.
Qed.

(** C2, amended.  The checkpoint is a single value held in process
    memory only.  It is absent whenever a process starts, whatever the
    table holds, so that the first cycle after a restart takes the whole
    fetched window as novel; a restart loses nothing but the checkpoint.
    A cycle opens with a signature request that carries the value held in
    memory and sends storage no command besides those of the counter merge;
    the placeholder that would read the checkpoint from storage answers
    null whatever the query does, and the placeholder that would record a
    processed signature does nothing. *)
Theorem C2_checkpoint_in_memory_only :
  forall (pid : PublicKey) (env : Env) (w : World),
    lastProcessedSignature (restart w) = None /\
    wallet_scores (restart w) = wallet_scores w /\
    (forall sigs,
        newSignaturesToProcess (lastProcessedSignature (restart w)) sigs = sigs) /\
    (exists evs,
        trace (cycle pid env w) =
        (trace w ++ RpcGetSignaturesForAddress SIGNATURE_FETCH_LIMIT
                      (lastProcessedSignature w) :: evs)%list) /\
    onlyIssued (fun e => isDbEvent e = true -> isMergeCommand e = true)
               w (cycle pid env w) /\
    fst (getLastProcessedSignatureFromDB env w) = Ok None /\
    (forall s, storeSignatureProcessed s w = (Ok tt, w)).
Proof.
  intros pid env w. repeat split.
  - apply cycle_request.
  - apply cycle_storage_commands.
  - unfold getLastProcessedSignatureFromDB. run_monad.
    destruct (db_select_ok env); reflexivity.
Qed.

(** After a restart the whole window is novel again. *)
Lemma C2_checkpoint_in_memory_only_witness :
  newSignaturesToProcess
    (lastProcessedSignature
       (restart (cycle Sample.program (Sample.healthy Sample.window) (boot ∅))))
    Sample.window = Sample.window.
Proof.
  exact (proj1 (proj2 (proj2
           (C2_checkpoint_in_memory_only Sample.program
              (Sample.healthy Sample.window)
              (cycle Sample.program (Sample.healthy Sample.window) (boot ∅)))))
           Sample.window).
Defined.

(** ** C3: the scheduler *)

Lemma schedulerRun_before_first_settles es :
  ~ In (CycleSettled 0) es -> schedulerRun runIndexer es = runIndexer.
Proof.
  unfold schedulerRun.
  induction es as [|e es IH]; simpl; intros Hnot; [reflexivity|].
  assert (Hstep : schedulerStep runIndexer e = runIndexer).
  { destruct e as [id|]; simpl; [|reflexivity].
    destruct id as [|id]; [exfalso; apply Hnot; left; reflexivity|].
    reflexivity. }
  rewrite Hstep. apply IH. intros Hin. apply Hnot. right. exact Hin.
Qed.

Lemma intervalArmed_stays s e :
  intervalArmed s = true -> intervalArmed (schedulerStep s e) = true.
Proof.
  intros Ha. destruct e as [id|]; simpl.
  - destruct (existsb (Nat.eqb id) (running s)); simpl; [|exact Ha].
    rewrite Ha. reflexivity.
  - rewrite Ha. exact Ha.
Qed.

(** C3 as stated fails.  Once the first cycle has settled and the timer is
    armed, two expiries of the interval with no cycle settling in between
    leave cycles 1 and 2 in flight together. *)
Lemma C3_cycles_overlap :
  running (schedulerRun runIndexer [CycleSettled 0; IntervalElapsed; IntervalElapsed])
  = [1%nat; 2%nat] /\
  ~ (forall es, (length (running (schedulerRun runIndexer es)) <= 1)%nat).
Proof.
  split; [reflexivity|].
  intros H. specialize (H [CycleSettled 0; IntervalElapsed; IntervalElapsed]).
  simpl in H. lia.
Qed.

(** C3, amended.  [runIndexer] starts exactly one cycle at once and arms
    no timer before that cycle has settled: until then nothing else runs,
    so the first cycle is never overlapped.  From then on the timer stays
    armed and every expiry of the interval starts exactly one new cycle,
    whether or not earlier cycles are still in flight. *)
Theorem C3_scheduler_first_awaited_then_unguarded :
  running runIndexer = [0%nat] /\
  intervalArmed runIndexer = false /\
  (forall es, ~ In (CycleSettled 0) es ->
              schedulerRun runIndexer es = runIndexer) /\
  intervalArmed (schedulerStep runIndexer (CycleSettled 0)) = true /\
  running (schedulerStep runIndexer (CycleSettled 0)) = [] /\
  (forall s e, intervalArmed s = true ->
               intervalArmed (schedulerStep s e) = true) /\
  (forall s, intervalArmed s = true ->
             running (schedulerStep s IntervalElapsed)
             = (running s ++ [nextId s])%list /\
             nextId (schedulerStep s IntervalElapsed) = S (nextId s)).
Proof.
  split; [reflexivity|]. split; [reflexivity|].
  split; [exact schedulerRun_before_first_settles|].
  split; [reflexivity|]. split; [reflexivity|].
  split; [exact intervalArmed_stays|].
  intros s Ha. simpl. rewrite Ha. split; reflexivity.
Qed.

(** Timer expiries before the first cycle settles start nothing; the
    expiry after it starts cycle 1. *)
Lemma C3_scheduler_first_awaited_then_unguarded_witness :
  schedulerRun runIndexer [IntervalElapsed; IntervalElapsed] = runIndexer /\
  running (schedulerStep (schedulerStep runIndexer (CycleSettled 0)) IntervalElapsed)
  = [1%nat].
Proof.
  pose proof C3_scheduler_first_awaited_then_unguarded
    as (_ & _ & Hfirst & _ & _ & _ & Htick).
  split.
  - apply Hfirst. simpl. intros [H|[H|[]]]; discriminate H.
  - exact (proj1 (Htick (schedulerStep runIndexer (CycleSettled 0)) eq_refl)).
Defined.

(** ** C10: the score endpoint *)

(** C10. For every address that the key constructor accepts (and that is
    not the empty text), when the table holds no row for it and storage
    answers the query, the endpoint responds 200 with an interaction count
    of 0.  For every address the constructor rejects, the endpoint
    responds 400 and the world is unchanged: storage was not consulted. *)
Theorem C10_score_unknown_wallet_is_zero :
  forall (programIdString : string)
         (new_PublicKey : string -> Completion PublicKey)
         (env : Env) (walletAddress : string) (w : World),
    (walletAddress <> "" ->
     isValidSolanaAddress new_PublicKey walletAddress = true ->
     wallet_scores w !! walletAddress = None ->
     db_select_ok env = true ->
     fst (getScore programIdString new_PublicKey env walletAddress w)
     = Ok {| status := 200;
             body := ScoreBody walletAddress programIdString 0 |}) /\
    (isValidSolanaAddress new_PublicKey walletAddress = false ->
     exists msg,
       getScore programIdString new_PublicKey env walletAddress w
       = (Ok {| status := 400; body := ErrorBody msg |}, w)).
Proof.
  intros pidS ctor env addr w. split.
  - intros Hne Hvalid Hrow Hdb. unfold getScore.
    apply truthy_Some in Hne. rewrite Hne, Hvalid. simpl.
    unfold db_query_score. run_monad. rewrite Hdb. simpl. rewrite Hrow. reflexivity.
  - intros Hinvalid. unfold getScore. rewrite Hinvalid. simpl.
    destruct (negb (negb (addr =? "")))%string; eexists; reflexivity.
Qed.

(** A well-formed address without a row scores 0 with status 200; the
    text [abc] is turned away with status 400. *)
Lemma C10_score_unknown_wallet_is_zero_witness :
  fst (getScore "8q6fEiMQYG1o3WgZyb9BTmo57zUDSmn2nTD9gcVoEo7" Sample.new_PublicKey
         (Sample.healthy []) Sample.walletX (boot ∅))
  = Ok {| status := 200;
          body := ScoreBody Sample.walletX
                    "8q6fEiMQYG1o3WgZyb9BTmo57zUDSmn2nTD9gcVoEo7" 0 |} /\
  exists msg,
    getScore "8q6fEiMQYG1o3WgZyb9BTmo57zUDSmn2nTD9gcVoEo7" Sample.new_PublicKey
      (Sample.healthy []) "abc" (boot ∅)
    = (Ok {| status := 400; body := ErrorBody msg |}, boot ∅).
Proof.
  split.
  - exact (proj1 (C10_score_unknown_wallet_is_zero
                    "8q6fEiMQYG1o3WgZyb9BTmo57zUDSmn2nTD9gcVoEo7"
                    Sample.new_PublicKey (Sample.healthy []) Sample.walletX (boot ∅))
                 ltac:(discriminate) eq_refl eq_refl eq_refl).
  - exact (proj2 (C10_score_unknown_wallet_is_zero
                    "8q6fEiMQYG1o3WgZyb9BTmo57zUDSmn2nTD9gcVoEo7"
                    Sample.new_PublicKey (Sample.healthy []) "abc" (boot ∅))
                 eq_refl).
Defined.

(** * Further properties of the indexer *)

(** ** Novelty filter *)

(** The filter answers the whole window, or the part of it before the
    first occurrence of a present checkpoint. *)
Lemma newSignaturesToProcess_cases cp window :
  (newSignaturesToProcess cp window = window /\
   (JS.truthy cp = false \/
    exists c, cp = Some c /\ ~ In c (map signature window))) \/
  (exists c k, cp = Some c /\ c <> "" /\ firstOccurrence c window k /\
               newSignaturesToProcess cp window = take k window).
Proof.
  destruct (JS.truthy cp) eqn:Ht.
  2:{ left. split; [apply newSignaturesToProcess_absent; exact Ht | left; reflexivity]. }
  destruct cp as [c|]; [|discriminate].
  assert (Hc : c <> "") by (apply truthy_Some; exact Ht).
  destruct (Z.eq_dec (JS.findIndex (fun s => String.eqb (signature s) c) window) (-1))
    as [Hnone|Hsome].
  - left. apply findIndex_none in Hnone.
    assert (Hnot : ~ In c (map signature window)).
    { intros Hin. apply in_map_iff in Hin as (x & Hx & Hin).
      rewrite List.Forall_forall in Hnone. specialize (Hnone x Hin).
      apply String.eqb_neq in Hnone. congruence. }
    split; [apply newSignaturesToProcess_missing; exact Hnot | right; eauto].
  - right.
    pose proof (findIndex_ge (fun s => String.eqb (signature s) c) window) as Hge.
    assert (Hpos : 0 <= JS.findIndex (fun s => String.eqb (signature s) c) window)
      by lia.
    destruct (findIndex_found _ window _ eq_refl Hpos) as (x & Hx & Hpx & Hfirst).
    set (k := Z.to_nat (JS.findIndex (fun s => String.eqb (signature s) c) window)) in *.
    assert (Hocc : firstOccurrence c window k).
    { split.
      - rewrite list_lookup_fmap, Hx. simpl. f_equal. apply String.eqb_eq. exact Hpx.
      - intros j Hj Hjc. rewrite list_lookup_fmap in Hjc.
        destruct (window !! j) as [y|] eqn:Hy; [|discriminate].
        simpl in Hjc. injection Hjc as Hjc.
        specialize (Hfirst j y Hj Hy). apply String.eqb_neq in Hfirst. congruence. }
    exists c, k. repeat split; try assumption; try apply Hocc.
    apply newSignaturesToProcess_found; assumption.
Qed.

Lemma newSignaturesToProcess_head cp window :
  newSignaturesToProcess cp window <> [] ->
  head (newSignaturesToProcess cp window) = head window.
Proof.
  destruct (newSignaturesToProcess_cases cp window)
    as [[-> _]|(c & k & _ & _ & _ & ->)]; [reflexivity|].
  destruct k, window; simpl; congruence.
Qed.

(** X1. Whatever the checkpoint, the novel set is a prefix of the fetch
    window (the window is the novel set followed by older entries), it
    never contains the identifier of a present checkpoint, and when it is
    not empty its newest entry is the newest entry of the window. *)
Theorem X1_novel_set_is_prefix_without_checkpoint :
  forall (cp : option string) (window : list ConfirmedSignatureInfo),
    (exists older, window = (newSignaturesToProcess cp window ++ older)%list) /\
    (forall c, cp = Some c -> c <> "" ->
               ~ In c (map signature (newSignaturesToProcess cp window))) /\
    (newSignaturesToProcess cp window <> [] ->
     head (newSignaturesToProcess cp window) = head window).
Proof.
  intros cp window. split; [|split].
  - destruct (newSignaturesToProcess_cases cp window)
      as [[-> _]|(c & k & _ & _ & _ & ->)].
    + exists []. rewrite app_nil_r. reflexivity.
    + exists (drop k window). rewrite take_drop. reflexivity.
  - intros c -> Hc.
    destruct (newSignaturesToProcess_cases (Some c) window)
      as [[-> [Ht|(c' & [= <-] & Hnot)]]|(c' & k & [= <-] & _ & [_ Hfirst] & ->)].
    + apply truthy_Some in Hc. congruence.
    + exact Hnot.
    + intros Hin. apply in_map_iff in Hin as (x & Hx & Hin).
      apply list_elem_of_In, list_elem_of_lookup in Hin as [j Hj].
      apply lookup_take_Some in Hj as [Hj Hlt].
      apply (Hfirst j Hlt). rewrite list_lookup_fmap, Hj. simpl. congruence.
  - apply newSignaturesToProcess_head.
Qed.

(** With checkpoint [s3] the novel part of [s5,s4,s3,s2,s1] does not
    contain [s3] and starts with [s5]. *)
Lemma X1_novel_set_is_prefix_without_checkpoint_witness :
  ~ In "s3" (map signature (newSignaturesToProcess (Some "s3") Sample.window)) /\
  head (newSignaturesToProcess (Some "s3") Sample.window) = Some Sample.s5.
Proof.
  pose proof (X1_novel_set_is_prefix_without_checkpoint (Some "s3") Sample.window)
    as (_ & Hnot & Hhead).
  split.
  - exact (Hnot "s3" eq_refl ltac:(discriminate)).
  - exact (Hhead ltac:(discriminate)).
Defined.

(** ** The cycle: what it may do to the checkpoint, and when nothing happens *)

(** X2. After any cycle the checkpoint is either what it was, or the
    identifier of the newest entry of the window that this cycle fetched;
    it never takes any other value. *)
Theorem X2_checkpoint_is_old_or_newest_fetched :
  forall (pid : PublicKey) (env : Env) (w : World),
    lastProcessedSignature (cycle pid env w) = lastProcessedSignature w \/
    exists sigs s,
      getSignaturesForAddress env SIGNATURE_FETCH_LIMIT (lastProcessedSignature w)
        = Normal (Some sigs) /\
      head sigs = Some s /\
      lastProcessedSignature (cycle pid env w) = Some (signature s).
Proof.
  intros pid env w.
  destruct (cycle_outcome pid env w)
    as [[Hl _] _
       | sigs s Hsig _ Hs Hl _ _ _
       | sigs s counts w1 w2 r evs Hsig Hs _ _ _ _ Hout _ _ _ Hok Hthrow].
  - left. exact Hl.
  - right. exists sigs, s. auto.
  - destruct r as [[]|e|].
    + right. exists sigs, s. split; [exact Hsig|]. split; [|apply Hok; reflexivity].
      rewrite <- Hs. symmetry. apply newSignaturesToProcess_head.
      intros Hnil. rewrite Hnil in Hs. discriminate.
    + left. apply Hthrow. eauto.
    + exfalso. apply (merge_terminates _ _ _ _ _ _ Hout). reflexivity.
Qed.


(** X4. When the signature request is rejected, or answers null, or
    answers an empty list, the cycle changes neither the checkpoint nor
    any counter nor the storage session, and its only I/O is that one
    request; in particular an empty window never moves the checkpoint. *)
Theorem X4_nothing_fetched_nothing_changes :
  forall (pid : PublicKey) (env : Env) (w : World),
    ((exists e, getSignaturesForAddress env SIGNATURE_FETCH_LIMIT
                  (lastProcessedSignature w) = Abrupt e) \/
     getSignaturesForAddress env SIGNATURE_FETCH_LIMIT (lastProcessedSignature w)
       = Normal None \/
     getSignaturesForAddress env SIGNATURE_FETCH_LIMIT (lastProcessedSignature w)
       = Normal (Some [])) ->
    sameState w (cycle pid env w) /\
    trace (cycle pid env w) =
      (trace w ++ [RpcGetSignaturesForAddress SIGNATURE_FETCH_LIMIT
                     (lastProcessedSignature w)])%list.
Proof.
  intros pid env w H. unfold cycle, processNewTransactions.
  unfold try_catch, bind, readLast, emit. simpl.
  destruct H as [[e ->]|[->| ->]]; simpl.
  - repeat split.
  - repeat split.
  - rewrite andb_false_r. simpl. repeat split.
Qed.

(** A rejected signature request leaves a checkpoint and a counter as
    they were. *)
Lemma X4_nothing_fetched_nothing_changes_witness :
  sameState
    {| lastProcessedSignature := Some "s3"; wallet_scores := {[ "A" := 7 ]};
       session := None; trace := [] |}
    (cycle Sample.program Scenario.rpcDown
       {| lastProcessedSignature := Some "s3"; wallet_scores := {[ "A" := 7 ]};
          session := None; trace := [] |}).
Proof.
  exact (proj1 (X4_nothing_fetched_nothing_changes Sample.program Scenario.rpcDown
                  {| lastProcessedSignature := Some "s3";
                     wallet_scores := {[ "A" := 7 ]};
                     session := None; trace := [] |}
                  (or_introl (ex_intro _ "fetch failed" eq_refl)))).
Defined.

(** X5. When the checkpoint already is the (non-empty) identifier of
    the newest entry of the fetched window, the cycle is a no-op on the
    state: checkpoint, counters and session are unchanged and nothing is
    sent to storage or asked about transactions.  Fetching the same
    window again after a completed cycle therefore counts nothing twice. *)
Theorem X5_refetching_a_processed_window_counts_nothing :
  forall (pid : PublicKey) (env : Env) (w : World)
         (sigs : list ConfirmedSignatureInfo) (s : ConfirmedSignatureInfo),
    getSignaturesForAddress env SIGNATURE_FETCH_LIMIT (lastProcessedSignature w)
      = Normal (Some sigs) ->
    head sigs = Some s ->
    signature s <> "" ->
    lastProcessedSignature w = Some (signature s) ->
    sameState w (cycle pid env w) /\
    trace (cycle pid env w) =
      (trace w ++ [RpcGetSignaturesForAddress SIGNATURE_FETCH_LIMIT
                     (lastProcessedSignature w)])%list.
Proof.
  intros pid env w sigs s Hsig Hs Hne Hl.
  destruct sigs as [|s0 sigs]; [discriminate|]. simpl in Hs. injection Hs as ->.
  destruct (cycle_after_fetch pid env w (s :: sigs) Hsig ltac:(discriminate))
    as (w0 & (Hl0 & Hs0 & Hse0) & Htr0 & Hrun).
  unfold cycle. rewrite Hrun. clear Hrun. cbv zeta.
  assert (Hnovel : newSignaturesToProcess (lastProcessedSignature w) (s :: sigs) = []).
  { rewrite Hl.
    rewrite (newSignaturesToProcess_found (signature s) (s :: sigs) 0 Hne).
    - reflexivity.
    - split; [reflexivity | intros j Hj; lia]. }
  rewrite Hnovel. simpl. repeat split; try assumption.
  simpl. symmetry. exact Hl.
Qed.

(** Checkpoint [s5], window [s5,...,s1]: nothing changes. *)
Lemma X5_refetching_a_processed_window_counts_nothing_witness :
  sameState
    {| lastProcessedSignature := Some "s5"; wallet_scores := {[ "A" := 7 ]};
       session := None; trace := [] |}
    (cycle Sample.program (Sample.healthy Sample.window)
       {| lastProcessedSignature := Some "s5"; wallet_scores := {[ "A" := 7 ]};
          session := None; trace := [] |}).
Proof.
  exact (proj1 (X5_refetching_a_processed_window_counts_nothing Sample.program
                  (Sample.healthy Sample.window)
                  {| lastProcessedSignature := Some "s5";
                     wallet_scores := {[ "A" := 7 ]};
                     session := None; trace := [] |}
                  Sample.window Sample.s5 eq_refl eq_refl
                  ltac:(discriminate) eq_refl)).
Defined.

(** ** Aggregator *)

Lemma tally_countBatch pid txs :
  forall m wallet,
    tally (countBatch pid m txs) wallet = tally m wallet + attributions pid txs wallet.
Proof.
  unfold countBatch, attributions.
  induction txs as [|tx txs IH]; intros m wallet; simpl; [lia|].
  rewrite IH, tally_countInteraction.
  destruct (bool_decide (attributedWallet pid tx = Some wallet)); simpl; lia.
Qed.

Lemma in_keys_set k v m x :
  In x (map fst (JSMap.set k v m)) -> x = k \/ In x (map fst m).
Proof.
  induction m as [|[k' v'] m IH]; simpl.
  - intros [->|[]]. left. reflexivity.
  - destruct (String.eqb k' k); simpl; intros [->|Hin]; auto.
    destruct (IH Hin); auto.
Qed.

Lemma NoDup_keys_set k v m :
  List.NoDup (map fst m) -> List.NoDup (map fst (JSMap.set k v m)).
Proof.
  induction m as [|[k' v'] m IH]; simpl; intros Hnd.
  - repeat constructor. intros [].
  - inversion Hnd as [|? ? Hnot Hrest]; subst.
    destruct (String.eqb_spec k' k) as [->|Hne]; simpl.
    + constructor; assumption.
    + constructor; [|apply IH; exact Hrest].
      intros Hin. apply in_keys_set in Hin as [->|Hin]; [congruence | contradiction].
Qed.

Lemma NoDup_keys_countBatch pid txs :
  forall m, List.NoDup (map fst m) -> List.NoDup (map fst (countBatch pid m txs)).
Proof.
  unfold countBatch. induction txs as [|tx txs IH]; intros m Hm; simpl; [exact Hm|].
  apply IH. rewrite countInteraction_attributed.
  destruct (attributedWallet pid tx); [apply NoDup_keys_set|]; exact Hm.
Qed.

Lemma get_positive m k v :
  positiveCounts m -> JSMap.get k m = Some v -> 1 <= v.
Proof.
  unfold positiveCounts. induction m as [|[k' v'] m IH]; simpl; [discriminate|].
  intros Hm. inversion Hm as [|? ? Hhd Htl]; subst. simpl in Hhd.
  destruct (String.eqb k' k); [intros [= <-]; exact Hhd | apply IH; exact Htl].
Qed.

Lemma attributions_nonneg pid txs wallet : 0 <= attributions pid txs wallet.
Proof. unfold attributions. lia. Qed.

(** The aggregate of a cycle, read entry by entry. *)
Lemma aggregate_get pid txs wallet :
  JSMap.get wallet (countBatch pid JSMap.empty txs) =
  if 0 <? attributions pid txs wallet
  then Some (attributions pid txs wallet) else None.
Proof.
  pose proof (tally_countBatch pid txs JSMap.empty wallet) as Ht.
  assert (Hp : positiveCounts (countBatch pid JSMap.empty txs))
    by (apply positiveCounts_countBatch; constructor).
  unfold tally in Ht. simpl in Ht.
  pose proof (attributions_nonneg pid txs wallet).
  destruct (JSMap.get wallet (countBatch pid JSMap.empty txs)) as [v|] eqn:Hg;
    simpl in Ht.
  - pose proof (get_positive _ _ _ Hp Hg).
    destruct (Z.ltb_spec 0 (attributions pid txs wallet)); [f_equal; lia | lia].
  - destruct (Z.ltb_spec 0 (attributions pid txs wallet)); [lia | reflexivity].
Qed.

(** X6. The aggregate built from a list of fetched transactions holds at
    most one entry per wallet, and a wallet's entry is the number of
    transactions the extractor credits to it: present with that number
    when it is positive, missing otherwise (three countable transactions
    of one wallet give that wallet the single increment 3). *)
Theorem X6_aggregate_counts_per_wallet :
  forall (pid : PublicKey) (txs : list (option ParsedTransactionWithMeta)),
    List.NoDup (map fst (countBatch pid JSMap.empty txs)) /\
    (forall wallet,
        JSMap.get wallet (countBatch pid JSMap.empty txs) =
        if 0 <? attributions pid txs wallet
        then Some (attributions pid txs wallet) else None).
Proof.
  intros pid txs. split.
  - apply NoDup_keys_countBatch. constructor.
  - intros wallet. apply aggregate_get.
Qed.

(** ** Batch detail fetcher: chunking and pacing *)

Lemma slice_take_drop {A : Type} (i n : Z) (l : list A) :
  0 <= i -> 0 <= n ->
  JS.slice i (i + n) l = take (Z.to_nat n) (drop (Z.to_nat i) l).
Proof.
  intros Hi Hn. unfold JS.slice, JS.clamp.
  destruct (Z.ltb_spec i 0); [lia|].
  destruct (Z.ltb_spec (i + n) 0); [lia|].
  destruct (Z.le_gt_cases i (Z.of_nat (length l))) as [Hle|Hgt].
  - rewrite (Z.min_l i) by lia.
    destruct (Z.le_gt_cases (i + n) (Z.of_nat (length l))).
    + rewrite Z.min_l by lia. f_equal. lia.
    + rewrite Z.min_r by lia.
      rewrite (take_ge (drop (Z.to_nat i) l) (Z.to_nat n))
        by (rewrite length_drop; lia).
      apply take_ge. rewrite length_drop. lia.
  - rewrite !Z.min_r by lia. rewrite Z.sub_diag. simpl.
    rewrite (drop_ge l (Z.to_nat i)) by lia. rewrite take_nil. reflexivity.
Qed.

Lemma countBatch_app pid m txs1 txs2 :
  countBatch pid (countBatch pid m txs1) txs2 = countBatch pid m (txs1 ++ txs2).
Proof. unfold countBatch. rewrite fold_left_app. reflexivity. Qed.

(** When every detail request is answered, the loop returns the aggregate
    of all bodies received; its requests cut the remaining signatures, in
    order, into batches of one to twenty; and it pauses after each batch
    exactly when the novel set does not fit into one batch. *)
Lemma fetchBatches_complete pid env novel :
  forall fuel i counts w txs,
    0 <= i ->
    fetchedTransactions env fuel i novel = Some txs ->
    exists w' evs,
      fetchBatches pid env fuel i novel counts w
        = (Ok (countBatch pid counts txs), w') /\
      sameState w w' /\
      trace w' = (trace w ++ evs)%list /\
      concat (requestedBatches evs) = map signature (drop (Z.to_nat i) novel) /\
      Forall (fun b => (1 <= length b <= 20)%nat) (requestedBatches evs) /\
      pauses evs =
        (if BATCH_FETCH_SIZE <? Z.of_nat (length novel)
         then replicate (length (requestedBatches evs)) 500 else []).
Proof.
  induction fuel as [|fuel IH]; intros i counts w txs Hi Hf; simpl in Hf |- *.
  - destruct (Z.ltb_spec i (Z.of_nat (length novel))) as [Hlt|Hge]; [discriminate|].
    injection Hf as <-. exists w, []. rewrite app_nil_r.
    rewrite drop_ge by lia. simpl.
    destruct (BATCH_FETCH_SIZE <? _); repeat split; auto.
  - destruct (Z.ltb_spec i (Z.of_nat (length novel))) as [Hlt|Hge].
    2:{ injection Hf as <-. exists w, []. rewrite app_nil_r.
        rewrite drop_ge by lia. simpl.
        destruct (BATCH_FETCH_SIZE <? _); repeat split; auto. }
    rewrite batch_nonempty in Hf |- * by assumption.
    destruct (getParsedTransactions env i _) as [txs1|e] eqn:Hg; [|discriminate].
    destruct (fetchedTransactions env fuel (i + BATCH_FETCH_SIZE) novel)
      as [rest|] eqn:Hrest; [|discriminate].
    injection Hf as <-.
    assert (Hi' : 0 <= i + BATCH_FETCH_SIZE) by (unfold BATCH_FETCH_SIZE; lia).
    assert (Hbatch : (map signature (JS.slice i (i + BATCH_FETCH_SIZE) novel)
                      ++ map signature (drop (Z.to_nat (i + BATCH_FETCH_SIZE)) novel))%list
                     = map signature (drop (Z.to_nat i) novel)).
    { rewrite slice_take_drop by (unfold BATCH_FETCH_SIZE; lia).
      rewrite <- map_app. f_equal.
      replace (Z.to_nat (i + BATCH_FETCH_SIZE))
        with (Z.to_nat i + Z.to_nat BATCH_FETCH_SIZE)%nat
        by (unfold BATCH_FETCH_SIZE; lia).
      rewrite <- drop_drop. apply take_drop. }
    assert (Hlen : (1 <= length (map signature (JS.slice i (i + BATCH_FETCH_SIZE) novel))
                    <= 20)%nat).
    { rewrite length_map, slice_length by (unfold BATCH_FETCH_SIZE; lia).
      unfold BATCH_FETCH_SIZE. lia. }
    run_monad.
    destruct (BATCH_FETCH_SIZE <? Z.of_nat (length novel)) eqn:Hbig; simpl.
    + match goal with |- context [fetchBatches pid env fuel ?i' novel ?c' ?w0] =>
        destruct (IH i' c' w0 rest Hi' Hrest)
          as (w' & evs & Hrun & (Hl & Hsc & Hse) & Htr & Hcat & Hall & Hp)
      end.
      rewrite Hrun. rewrite countBatch_app.
      exists w', (RpcGetParsedTransactions
                    (map signature (JS.slice i (i + BATCH_FETCH_SIZE) novel))
                  :: Sleep 500 :: evs)%list.
      simpl in *.
      split; [reflexivity|]. split; [repeat split; assumption|].
      split; [rewrite Htr, <- !app_assoc; reflexivity|].
      split; [rewrite Hcat; exact Hbatch|].
      split; [constructor; assumption|].
      rewrite Hp. reflexivity.
    + match goal with |- context [fetchBatches pid env fuel ?i' novel ?c' ?w0] =>
        destruct (IH i' c' w0 rest Hi' Hrest)
          as (w' & evs & Hrun & (Hl & Hsc & Hse) & Htr & Hcat & Hall & Hp)
      end.
      rewrite Hrun. rewrite countBatch_app.
      exists w', (RpcGetParsedTransactions
                    (map signature (JS.slice i (i + BATCH_FETCH_SIZE) novel))
                  :: evs)%list.
      simpl in *.
      split; [reflexivity|]. split; [repeat split; assumption|].
      split; [rewrite Htr, <- !app_assoc; reflexivity|].
      split; [rewrite Hcat; exact Hbatch|].
      split; [constructor; assumption|].
      exact Hp.
Qed.

(** X7. When every detail request of a cycle is answered, the batches
    requested are, put end to end, exactly the identifiers of the novel
    set in their order; every batch holds between one and twenty of them;
    and the loop returns the aggregate of all the bodies received. *)
Theorem X7_batches_partition_the_novel_set :
  forall (pid : PublicKey) (env : Env) (novel : list ConfirmedSignatureInfo)
         (w : World) (txs : list (option ParsedTransactionWithMeta)),
    fetchedTransactions env (length novel) 0 novel = Some txs ->
    fst (fetchBatches pid env (length novel) 0 novel JSMap.empty w)
      = Ok (countBatch pid JSMap.empty txs) /\
    exists evs,
      trace (snd (fetchBatches pid env (length novel) 0 novel JSMap.empty w))
        = (trace w ++ evs)%list /\
      concat (requestedBatches evs) = map signature novel /\
      Forall (fun b => (1 <= length b <= 20)%nat) (requestedBatches evs).
Proof.
  intros pid env novel w txs Hf.
  destruct (fetchBatches_complete pid env novel (length novel) 0 JSMap.empty w txs
              ltac:(lia) Hf)
    as (w' & evs & Hrun & _ & Htr & Hcat & Hall & _).
  rewrite Hrun. simpl. split; [reflexivity|].
  exists evs. repeat split; assumption.
Qed.

(** Twenty-one signatures are asked for in a batch of twenty and a batch
    of one. *)
Lemma X7_batches_partition_the_novel_set_witness :
  exists evs,
    trace (snd (fetchBatches Sample.program (Sample.healthy Sample.longWindow)
                  (length Sample.longWindow) 0 Sample.longWindow JSMap.empty
                  (boot ∅)))
      = (trace (boot ∅) ++ evs)%list /\
    concat (requestedBatches evs) = map signature Sample.longWindow /\
    Forall (fun b => (1 <= length b <= 20)%nat) (requestedBatches evs).
Proof.
  exact (proj2 (X7_batches_partition_the_novel_set Sample.program
                  (Sample.healthy Sample.longWindow) Sample.longWindow (boot ∅)
                  _ eq_refl)).
Defined.

(** X8. When every detail request of a cycle is answered, the loop
    takes no pause at all if the novel set has at most twenty entries, and
    otherwise one pause of 500 ms after every batch, the last included. *)
Theorem X8_pause_after_each_batch_of_a_long_run :
  forall (pid : PublicKey) (env : Env) (novel : list ConfirmedSignatureInfo)
         (w : World) (txs : list (option ParsedTransactionWithMeta)),
    fetchedTransactions env (length novel) 0 novel = Some txs ->
    exists evs,
      trace (snd (fetchBatches pid env (length novel) 0 novel JSMap.empty w))
        = (trace w ++ evs)%list /\
      ((length novel <= 20)%nat -> pauses evs = []) /\
      ((20 < length novel)%nat ->
       pauses evs = replicate (length (requestedBatches evs)) 500).
Proof.
  intros pid env novel w txs Hf.
  destruct (fetchBatches_complete pid env novel (length novel) 0 JSMap.empty w txs
              ltac:(lia) Hf)
    as (w' & evs & Hrun & _ & Htr & _ & _ & Hp).
  rewrite Hrun. simpl. exists evs. split; [exact Htr|].
  unfold BATCH_FETCH_SIZE in Hp.
  destruct (Z.ltb_spec 20 (Z.of_nat (length novel))); split; intros Hn;
    try lia; exact Hp.
Qed.

(** Five signatures: no pause.  Twenty-one: two batches, two pauses. *)
Lemma X8_pause_after_each_batch_of_a_long_run_witness :
  (exists evs,
      trace (snd (fetchBatches Sample.program (Sample.healthy Sample.window)
                    (length Sample.window) 0 Sample.window JSMap.empty (boot ∅)))
        = (trace (boot ∅) ++ evs)%list /\
      pauses evs = []) /\
  (exists evs,
      trace (snd (fetchBatches Sample.program (Sample.healthy Sample.longWindow)
                    (length Sample.longWindow) 0 Sample.longWindow JSMap.empty
                    (boot ∅)))
        = (trace (boot ∅) ++ evs)%list /\
      pauses evs = replicate (length (requestedBatches evs)) 500).
Proof.
  split.
  - destruct (X8_pause_after_each_batch_of_a_long_run Sample.program
                (Sample.healthy Sample.window) Sample.window (boot ∅) _ eq_refl)
      as (evs & Htr & Hshort & _).
    exists evs. split; [exact Htr|]. apply Hshort. simpl. lia.
  - destruct (X8_pause_after_each_batch_of_a_long_run Sample.program
                (Sample.healthy Sample.longWindow) Sample.longWindow (boot ∅)
                _ eq_refl)
      as (evs & Htr & _ & Hlong).
    exists evs. split; [exact Htr|]. apply Hlong. simpl. lia.
Defined.

(** ** Merge committer: the commands it sends *)







(** ** A cycle that commits: what ends up in the table *)

Lemma upsert_lookup k c t t' :
  upsert k c t = Some t' ->
  t' !! k = Some (default 0 (t !! k) + c) /\
  forall k', k' <> k -> t' !! k' = t !! k'.
Proof.
  unfold upsert. intros Hu.
  destruct (WALLET_ADDRESS_WIDTH <? String.length k)%nat; [discriminate|].
  destruct (negb (in_int4 c)); [discriminate|].
  destruct (t !! k) as [old|] eqn:Hk.
  - destruct (in_int4 (old + c)); [|discriminate]. injection Hu as <-. split.
    + rewrite lookup_insert_eq. reflexivity.
    + intros k' Hne. apply lookup_insert_ne. congruence.
  - injection Hu as <-. split.
    + rewrite lookup_insert_eq. reflexivity.
    + intros k' Hne. apply lookup_insert_ne. congruence.
Qed.

Lemma get_not_in_keys k m : ~ In k (map fst m) -> JSMap.get k m = None.
Proof.
  induction m as [|[k' v'] m IH]; simpl; intros Hnot; [reflexivity|].
  destruct (String.eqb_spec k' k) as [->|Hne]; [exfalso; auto|].
  apply IH. auto.
Qed.

(** With one entry per wallet, applying the whole aggregate adds each
    entry to its wallet's row and leaves every other row alone. *)
Lemma applyAll_lookup env counts :
  List.NoDup (map fst counts) ->
  forall t t',
    applyAll env counts t = Some t' ->
    forall k,
      t' !! k = match JSMap.get k counts with
                | Some c => Some (default 0 (t !! k) + c)
                | None => t !! k
                end.
Proof.
  induction counts as [|[k0 c0] counts IH]; simpl; intros Hnd t t' Ha k.
  - injection Ha as <-. reflexivity.
  - inversion Hnd as [|? ? Hnot Hrest]; subst.
    destruct (db_statement_ok env k0 c0); [|discriminate].
    destruct (upsert k0 c0 t) as [t1|] eqn:Hu; [|discriminate].
    destruct (upsert_lookup _ _ _ _ Hu) as [Hk0 Hother].
    rewrite (IH Hrest t1 t' Ha k).
    destruct (String.eqb_spec k0 k) as [->|Hne].
    + rewrite (get_not_in_keys k counts Hnot). exact Hk0.
    + rewrite (Hother k) by congruence. reflexivity.
Qed.

(** X10. A cycle whose detail requests are all answered and whose merge
    commits ends with the checkpoint on the newest fetched identifier and
    with every wallet's stored count raised by exactly the number of
    fetched transactions the extractor credits to it (a missing row
    counting as zero); the rows of wallets without such a transaction are
    untouched. *)
Theorem X10_committed_cycle_adds_the_attributions :
  forall (pid : PublicKey) (env : Env) (w : World)
         (sigs : list ConfirmedSignatureInfo)
         (txs : list (option ParsedTransactionWithMeta)),
    getSignaturesForAddress env SIGNATURE_FETCH_LIMIT (lastProcessedSignature w)
      = Normal (Some sigs) ->
    newSignaturesToProcess (lastProcessedSignature w) sigs <> [] ->
    fetchedTransactions env
      (length (newSignaturesToProcess (lastProcessedSignature w) sigs)) 0
      (newSignaturesToProcess (lastProcessedSignature w) sigs) = Some txs ->
    mergeCommits env (countBatch pid JSMap.empty txs) (wallet_scores w) = true ->
    lastProcessedSignature (cycle pid env w) = signature <$> head sigs /\
    forall wallet,
      wallet_scores (cycle pid env w) !! wallet =
      if 0 <? attributions pid txs wallet
      then Some (default 0 (wallet_scores w !! wallet) + attributions pid txs wallet)
      else wallet_scores w !! wallet.
Proof.
  intros pid env w sigs txs Hsig Hnovel Hf Hm.
  assert (Hne : sigs <> []).
  { intros ->. apply Hnovel. apply newSignaturesToProcess_nil. }
  destruct (cycle_after_fetch pid env w sigs Hsig Hne)
    as (w0 & (Hl0 & Hs0 & Hse0) & Htr0 & Hrun).
  unfold cycle. rewrite Hrun. clear Hrun. cbv zeta.
  pose proof (newSignaturesToProcess_head _ _ Hnovel) as Hhead.
  set (novel := newSignaturesToProcess (lastProcessedSignature w) sigs) in *.
  destruct (Z.eqb_spec (Z.of_nat (length novel)) 0) as [Hz|Hnz].
  { apply length_zero_nil in Hz. contradiction. }
  destruct (fetchBatches_complete pid env novel (length novel) 0 JSMap.empty w0 txs
              ltac:(lia) Hf)
    as (w1 & evs & Hfb & (Hl1 & Hs1 & Hse1) & _).
  unfold try_catch, bind. rewrite Hfb.
  set (counts := countBatch pid JSMap.empty txs) in *.
  destruct (mergeCounts_outcome env counts w1) as (r & w2 & mevs & Hmrun & Hout).
  rewrite Hmrun.
  assert (Hscores : wallet_scores w1 = wallet_scores w) by congruence.
  assert (Hres : r = Ok tt /\
                 applyAll env counts (wallet_scores w) = Some (wallet_scores w2)).
  { rewrite <- Hscores. destruct counts as [|p counts'] eqn:Hcounts.
    - destruct (merge_empty _ _ _ _ _ _ Hout eq_refl) as [-> ->]. auto.
    - rewrite <- Hscores in Hm.
      destruct (merge_all _ _ _ _ _ _ Hout ltac:(discriminate) Hm). auto. }
  destruct Hres as [-> Happly].
  destruct (length_nonzero_head novel Hnz) as [s Hs].
  rewrite (assignNewest_head _ _ _ Hs). simpl. split.
  - rewrite <- Hhead, Hs. reflexivity.
  - intros wallet.
    rewrite (applyAll_lookup env counts
               ltac:(apply NoDup_keys_countBatch; constructor) _ _ Happly wallet).
    unfold counts. rewrite aggregate_get.
    destruct (0 <? attributions pid txs wallet); reflexivity.
Qed.

(** Cold start over [s5,...,s1]; two of the five transactions are
    countable ones of wallet [A], which already stands at 40: afterwards
    the checkpoint is [s5] and [A] stands at 42. *)
Lemma X10_committed_cycle_adds_the_attributions_witness :
  lastProcessedSignature
    (cycle Sample.program (Scenario.mixed Sample.window) (boot {[ "A" := 40 ]}))
  = Some "s5" /\
  wallet_scores
    (cycle Sample.program (Scenario.mixed Sample.window) (boot {[ "A" := 40 ]}))
    !! "A" = Some 42.
Proof.
  pose proof (X10_committed_cycle_adds_the_attributions Sample.program
                (Scenario.mixed Sample.window) (boot {[ "A" := 40 ]})
                Sample.window _ eq_refl ltac:(discriminate) eq_refl eq_refl)
    as [Hl Hs].
  split; [exact Hl | exact (Hs "A")].
Defined.

(** ** The table keeps to its column types *)






(** * Further properties of the API server *)

(** ** Score endpoint *)

(** X12. For an address the key constructor accepts, when storage
    answers, the endpoint responds 200 with exactly the count stored for
    that address; in particular, right after an accepted upsert of [count]
    for the address it reports the previous count (zero if there was no
    row) plus [count]. *)
Theorem X12_score_reports_the_stored_count :
  forall (programIdString : string)
         (new_PublicKey : string -> Completion PublicKey)
         (env : Env) (address : string) (w : World) (stored : Z),
    address <> "" ->
    isValidSolanaAddress new_PublicKey address = true ->
    db_select_ok env = true ->
    wallet_scores w !! address = Some stored ->
    fst (getScore programIdString new_PublicKey env address w)
      = Ok {| status := 200; body := ScoreBody address programIdString stored |} /\
    (forall t count,
        upsert address count t = Some (wallet_scores w) ->
        stored = default 0 (t !! address) + count).
Proof.
  intros pidS ctor env addr w stored Hne Hvalid Hdb Hrow. split.
  - unfold getScore. apply truthy_Some in Hne. rewrite Hne, Hvalid. simpl.
    unfold db_query_score. run_monad. rewrite Hdb. simpl. rewrite Hrow. reflexivity.
  - intros t count Hu. apply upsert_lookup in Hu as [Hk _]. congruence.
Qed.

(** A wallet stored with count 7 is reported with 7. *)
Lemma X12_score_reports_the_stored_count_witness :
  fst (getScore "8q6fEiMQYG1o3WgZyb9BTmo57zUDSmn2nTD9gcVoEo7" Sample.new_PublicKey
         (Sample.healthy []) Sample.walletX (boot {[ Sample.walletX := 7 ]}))
  = Ok {| status := 200;
          body := ScoreBody Sample.walletX
                    "8q6fEiMQYG1o3WgZyb9BTmo57zUDSmn2nTD9gcVoEo7" 7 |}.
Proof.
  exact (proj1 (X12_score_reports_the_stored_count
                  "8q6fEiMQYG1o3WgZyb9BTmo57zUDSmn2nTD9gcVoEo7"
                  Sample.new_PublicKey (Sample.healthy []) Sample.walletX
                  (boot {[ Sample.walletX := 7 ]}) 7
                  ltac:(discriminate) eq_refl eq_refl eq_refl)).
Defined.

(** X13. The score handler always answers, with status 400, 200 or 500,
    and never changes the checkpoint, a counter or the storage session.
    It answers 400 without consulting storage exactly when the address is
    empty or rejected by the key constructor; otherwise it sends exactly
    one query and answers 200 with the stored count (zero without a row)
    if storage answers, 500 if it does not. *)
Theorem X13_score_handler_reads_only :
  forall (programIdString : string)
         (new_PublicKey : string -> Completion PublicKey)
         (env : Env) (address : string) (w : World),
    sameState w (snd (getScore programIdString new_PublicKey env address w)) /\
    exists response,
      fst (getScore programIdString new_PublicKey env address w) = Ok response /\
      ((status response = 400 /\
        (address = "" \/ isValidSolanaAddress new_PublicKey address = false) /\
        snd (getScore programIdString new_PublicKey env address w) = w) \/
       (address <> "" /\ isValidSolanaAddress new_PublicKey address = true /\
        trace (snd (getScore programIdString new_PublicKey env address w))
          = (trace w ++ [DbSelectScore address])%list /\
        ((db_select_ok env = true /\
          response = {| status := 200;
                        body := ScoreBody address programIdString
                                  (default 0 (wallet_scores w !! address)) |}) \/
         (db_select_ok env = false /\ status response = 500)))).
Proof.
  intros pidS ctor env addr w. unfold getScore.
  destruct (String.eqb_spec addr "") as [->|Hne].
  { simpl. split; [repeat split|]. eexists. split; [reflexivity|].
    left. simpl. auto. }
  assert (Ht : JS.truthy (Some addr) = true) by (apply truthy_Some; exact Hne).
  rewrite Ht. simpl.
  destruct (isValidSolanaAddress ctor addr) eqn:Hvalid; simpl.
  2:{ split; [repeat split|]. eexists. split; [reflexivity|]. left. simpl. auto. }
  unfold db_query_score. run_monad.
  destruct (db_select_ok env) eqn:Hdb; simpl.
  - split; [repeat split|]. eexists. split; [reflexivity|].
    right. repeat split; auto. left. split; [reflexivity|].
    destruct (wallet_scores w !! addr); reflexivity.
  - split; [repeat split|]. eexists. split; [reflexivity|].
    right. repeat split; auto.
Qed.

(** ** Scoreboard endpoint *)

Lemma rowBefore_iff a b :
  rowBefore a b <->
  interaction_count b < interaction_count a \/
  (interaction_count a = interaction_count b /\ updated_at a <= updated_at b).
Proof.
  unfold rowBefore, rowBeforeb.
  rewrite orb_true_iff, andb_true_iff, Z.ltb_lt, Z.eqb_eq, Z.leb_le. tauto.
Qed.

#[global] Instance rowBefore_total : Total rowBefore.
Proof. intros a b. rewrite !rowBefore_iff. lia. Qed.

#[global] Instance rowBefore_transitive : Transitive rowBefore.
Proof. intros a b c. rewrite !rowBefore_iff. lia. Qed.

Lemma StronglySorted_lookup {A : Type} (R : relation A) (l : list A) :
  StronglySorted R l ->
  forall (i j : nat) x y,
    (i < j)%nat -> l !! i = Some x -> l !! j = Some y -> R x y.
Proof.
  induction 1 as [|a l Hs IH Hall]; intros i j x y Hij Hi Hj; [destruct i; discriminate|].
  destruct j as [|j]; [lia|]. simpl in Hj.
  destruct i as [|i]; simpl in Hi.
  - injection Hi as <-. rewrite List.Forall_forall in Hall. apply Hall.
    apply list_elem_of_In. eapply list_elem_of_lookup_2. exact Hj.
  - apply (IH i j); [lia | assumption | assumption].
Qed.

Lemma elem_of_tableRows scores upd r :
  r ∈ tableRows scores upd <->
  scores !! wallet_address r = Some (interaction_count r) /\
  updated_at r = upd (wallet_address r).
Proof.
  unfold tableRows. rewrite list_elem_of_fmap. split.
  - intros ([k c] & -> & Hin). simpl.
    apply elem_of_map_to_list in Hin. auto.
  - intros [Hrow Hupd]. exists (wallet_address r, interaction_count r). split.
    + destruct r as [k c u]. simpl in *. congruence.
    + apply elem_of_map_to_list. exact Hrow.
Qed.

Lemma tableRows_wallets scores upd :
  wallet_address <$> tableRows scores upd = (map_to_list scores).*1.
Proof.
  unfold tableRows. rewrite <- list_fmap_compose. reflexivity.
Qed.

Lemma toScoreboard_wallets rows :
  walletAddress <$> toScoreboard rows = wallet_address <$> rows.
Proof.
  unfold toScoreboard. rewrite fmap_imap, <- imap_const.
  apply imap_ext. reflexivity.
Qed.

Lemma toScoreboard_lookup rows (i : nat) e :
  toScoreboard rows !! i = Some e ->
  exists r, rows !! i = Some r /\
            rank e = Z.of_nat i + 1 /\
            walletAddress e = wallet_address r /\
            score e = interaction_count r.
Proof.
  unfold toScoreboard. rewrite list_lookup_imap.
  destruct (rows !! i) as [r|]; simpl; [|discriminate].
  intros [= <-]. exists r. auto.
Qed.

(** What a 200 response of the scoreboard handler is made of. *)
Lemma getScoreboard_ok parseInt upd env n w :
  scoreboardStatus (fst (getScoreboard parseInt upd env n w)) = 200 ->
  exists k,
    orTen (parseInt n) = Num k /\ 0 < k /\ db_select_ok env = true /\
    snd (getScoreboard parseInt upd env n w) = [Num k] /\
    scoreboardBody (fst (getScoreboard parseInt upd env n w)) =
    match take (Z.to_nat k) (merge_sort rowBefore (tableRows (wallet_scores w) upd)) with
    | [] => ScoreboardEmpty "Scoreboard is currently empty." []
    | rows => ScoreboardList (toScoreboard rows)
    end.
Proof.
  unfold getScoreboard.
  destruct (orTen (parseInt n)) as [|k|neg] eqn:Hk; simpl.
  - discriminate.
  - destruct (Z.leb_spec k 0) as [Hle|Hgt]; simpl; [discriminate|].
    destruct (db_select_ok env); [|discriminate]. simpl.
    destruct (Z.leb_spec 0 k); [|lia]. simpl.
    destruct (k <=? INT8_MAX); [|discriminate]. simpl.
    destruct (take (Z.to_nat k) _) as [|r rows] eqn:Hrows; simpl.
    + intros _. exists k. rewrite Hrows. auto.
    + intros _. exists k. rewrite Hrows. auto.
  - destruct neg; simpl; [discriminate|].
    destruct (db_select_ok env); discriminate.
Qed.

Lemma getScoreboard_list parseInt upd env n w board :
  scoreboardBody (fst (getScoreboard parseInt upd env n w)) = ScoreboardList board ->
  exists k,
    orTen (parseInt n) = Num k /\ 0 < k /\
    board = toScoreboard
              (take (Z.to_nat k)
                    (merge_sort rowBefore (tableRows (wallet_scores w) upd))) /\
    board <> [].
Proof.
  intros Hb.
  assert (Hs : scoreboardStatus (fst (getScoreboard parseInt upd env n w)) = 200).
  { revert Hb. unfold getScoreboard.
    destruct (isNaN _ || lessEqZero _); simpl; [discriminate|].
    destruct (if db_select_ok env then _ else None) as [rows|]; simpl; [|discriminate].
    destruct (Z.of_nat (length (toScoreboard rows)) =? 0); simpl; [discriminate|].
    reflexivity. }
  destruct (getScoreboard_ok _ _ _ _ _ Hs) as (k & Hk & Hpos & _ & _ & Hbody).
  rewrite Hbody in Hb. exists k.
  destruct (take (Z.to_nat k) _) as [|r rows]; [discriminate|].
  injection Hb as <-. repeat split; auto.
Qed.

Lemma sortedRows_length scores upd :
  length (merge_sort rowBefore (tableRows scores upd)) = size scores.
Proof.
  rewrite (Permutation_length (merge_sort_Permutation rowBefore _)).
  unfold tableRows. rewrite length_fmap. apply length_map_to_list.
Qed.

Lemma sortedRows_elem scores upd r :
  r ∈ merge_sort rowBefore (tableRows scores upd) <->
  scores !! wallet_address r = Some (interaction_count r) /\
  updated_at r = upd (wallet_address r).
Proof.
  rewrite (merge_sort_Permutation rowBefore (tableRows scores upd)).
  apply elem_of_tableRows.
Qed.

Lemma sortedRows_NoDup_wallets scores upd :
  NoDup (wallet_address <$> merge_sort rowBefore (tableRows scores upd)).
Proof.
  rewrite (merge_sort_Permutation rowBefore (tableRows scores upd)).
  rewrite tableRows_wallets. apply NoDup_fst_map_to_list.
Qed.

(** X14. The limit of the scoreboard is [parseInt(n) || 10]: when
    [parseInt] yields NaN (no [n], or text that is not a number) or zero,
    the handler behaves exactly as for [n = 10]; it answers 400, without
    consulting storage, exactly when [parseInt] yields a negative number
    (or negative infinity).  Text that is not a number is thus never
    rejected. *)
Theorem X14_scoreboard_limit_default_and_rejection :
  forall (parseInt : option string -> JSNumber) (upd : string -> Z)
         (env : Env) (n : option string) (w : World),
    ((parseInt n = NaN \/ parseInt n = Num 0) ->
     getScoreboard parseInt upd env n w
     = getScoreboard (fun _ => Num 10) upd env n w) /\
    (((exists k, parseInt n = Num k /\ k < 0) \/ parseInt n = Infinity true) ->
     scoreboardStatus (fst (getScoreboard parseInt upd env n w)) = 400 /\
     snd (getScoreboard parseInt upd env n w) = []) /\
    (scoreboardStatus (fst (getScoreboard parseInt upd env n w)) = 400 ->
     (exists k, parseInt n = Num k /\ k < 0) \/ parseInt n = Infinity true).
Proof.
  intros parseInt upd env n w. unfold getScoreboard. split; [|split].
  - intros [-> | ->]; reflexivity.
  - intros [(k & -> & Hk) | ->]; simpl; [|auto].
    destruct (Z.eqb_spec k 0); [lia|]. simpl.
    destruct (Z.leb_spec k 0); [|lia]. simpl. auto.
  - destruct (parseInt n) as [|k|[|]]; simpl.
    + destruct (db_select_ok env); simpl.
      * destruct (Z.of_nat _ =? 0); discriminate.
      * discriminate.
    + destruct (Z.eqb_spec k 0) as [->|Hne]; simpl.
      * destruct (db_select_ok env); simpl.
        -- destruct (Z.of_nat _ =? 0); discriminate.
        -- discriminate.
      * destruct (Z.leb_spec k 0); simpl.
        -- intros _. left. exists k. split; [reflexivity | lia].
        -- destruct (if db_select_ok env then _ else None); simpl.
           ++ destruct (Z.of_nat _ =? 0); discriminate.
           ++ discriminate.
    + auto.
    + destruct (db_select_ok env); discriminate.
Qed.

(** Without [n] the three rows are listed as for [n = 10]; [n = -3] is
    turned away. *)
Lemma X14_scoreboard_limit_default_and_rejection_witness :
  getScoreboard Scenario.parseInt Scenario.updatedAt (Sample.healthy []) None
                Scenario.table
  = getScoreboard (fun _ => Num 10) Scenario.updatedAt (Sample.healthy []) None
                  Scenario.table /\
  scoreboardStatus
    (fst (getScoreboard Scenario.parseInt Scenario.updatedAt (Sample.healthy [])
            (Some "-3") Scenario.table)) = 400.
Proof.
  pose proof (X14_scoreboard_limit_default_and_rejection Scenario.parseInt
                Scenario.updatedAt (Sample.healthy []) None Scenario.table)
    as (Hdefault & _).
  pose proof (X14_scoreboard_limit_default_and_rejection Scenario.parseInt
                Scenario.updatedAt (Sample.healthy []) (Some "-3") Scenario.table)
    as (_ & Hreject & _).
  split.
  - exact (Hdefault (or_introl eq_refl)).
  - exact (proj1 (Hreject (or_introl (ex_intro _ (-3) (conj eq_refl eq_refl))))).
Defined.

(** X15. Whenever the handler answers with a list, the list is not
    empty, holds as many entries as the limit allows and the table has
    rows (the smaller of the two numbers), is ranked 1, 2, 3, ... from the
    top, shows every wallet at most once, and every entry is a row of the
    table with its stored count. *)
Theorem X15_scoreboard_entries_are_ranked_table_rows :
  forall (parseInt : option string -> JSNumber) (upd : string -> Z)
         (env : Env) (n : option string) (w : World)
         (board : list ScoreboardEntry),
    scoreboardBody (fst (getScoreboard parseInt upd env n w)) = ScoreboardList board ->
    board <> [] /\
    (exists k, orTen (parseInt n) = Num k /\
               length board = Nat.min (Z.to_nat k) (size (wallet_scores w))) /\
    (forall (i : nat) e, board !! i = Some e ->
                         rank e = Z.of_nat i + 1 /\
                         wallet_scores w !! walletAddress e = Some (score e)) /\
    NoDup (walletAddress <$> board).
Proof.
  intros parseInt upd env n w board Hb.
  destruct (getScoreboard_list _ _ _ _ _ _ Hb) as (k & Hk & Hpos & -> & Hne).
  split; [exact Hne|]. split; [|split].
  - exists k. split; [exact Hk|].
    unfold toScoreboard. rewrite length_imap, length_take, sortedRows_length.
    reflexivity.
  - intros i e He.
    apply toScoreboard_lookup in He as (r & Hr & Hrank & Hwal & Hscore).
    split; [exact Hrank|].
    apply lookup_take_Some in Hr as [Hr _].
    apply list_elem_of_lookup_2, sortedRows_elem in Hr as [Hrow _].
    rewrite Hwal, Hscore. exact Hrow.
  - rewrite toScoreboard_wallets, fmap_take.
    eapply sublist_NoDup; [apply sortedRows_NoDup_wallets | apply sublist_take].
Qed.

(** Limit 2 over three rows: two entries, ranked 1 and 2. *)
Lemma X15_scoreboard_entries_are_ranked_table_rows_witness :
  exists board,
    scoreboardBody
      (fst (getScoreboard Scenario.parseInt Scenario.updatedAt (Sample.healthy [])
              (Some "2") Scenario.table)) = ScoreboardList board /\
    length board = 2%nat /\
    NoDup (walletAddress <$> board).
Proof.
  eexists. split; [reflexivity|].
  pose proof (X15_scoreboard_entries_are_ranked_table_rows Scenario.parseInt
                Scenario.updatedAt (Sample.healthy []) (Some "2") Scenario.table
                _ eq_refl) as (_ & _ & _ & Hnd).
  split; [reflexivity | exact Hnd].
Defined.

(** X16. The list is ordered by count, highest first, and among equal
    counts by time of last update, oldest first; and it is the top of the
    table: a wallet that has a row but is not listed has a count no higher
    than any listed entry, and with an equal count it was updated no
    earlier. *)
Theorem X16_scoreboard_is_the_ordered_top_of_the_table :
  forall (parseInt : option string -> JSNumber) (upd : string -> Z)
         (env : Env) (n : option string) (w : World)
         (board : list ScoreboardEntry),
    scoreboardBody (fst (getScoreboard parseInt upd env n w)) = ScoreboardList board ->
    (forall (i j : nat) a b,
        (i < j)%nat -> board !! i = Some a -> board !! j = Some b ->
        score b <= score a /\
        (score a = score b -> upd (walletAddress a) <= upd (walletAddress b))) /\
    (forall a wallet count,
        a ∈ board ->
        wallet_scores w !! wallet = Some count ->
        wallet ∉ (walletAddress <$> board) ->
        count <= score a /\
        (count = score a -> upd (walletAddress a) <= upd wallet)).
Proof.
  intros parseInt upd env n w board Hb.
  destruct (getScoreboard_list _ _ _ _ _ _ Hb) as (k & Hk & Hpos & -> & Hne).
  set (sorted := merge_sort rowBefore (tableRows (wallet_scores w) upd)) in *.
  assert (Hsorted : StronglySorted rowBefore (take (Z.to_nat k) sorted ++ drop (Z.to_nat k) sorted)).
  { rewrite take_drop. apply StronglySorted_merge_sort; apply _. }
  apply StronglySorted_app in Hsorted as (Hcross & Htake & _).
  split.
  - intros i j a b Hij Ha Hb'.
    apply toScoreboard_lookup in Ha as (ra & Hra & _ & Hwa & Hsa).
    apply toScoreboard_lookup in Hb' as (rb & Hrb & _ & Hwb & Hsb).
    pose proof (StronglySorted_lookup _ _ Htake i j ra rb Hij Hra Hrb) as Hord.
    apply rowBefore_iff in Hord.
    apply list_elem_of_lookup_2 in Hra, Hrb.
    apply elem_of_take in Hra as (? & Hra & _), Hrb as (? & Hrb & _).
    apply list_elem_of_lookup_2, sortedRows_elem in Hra as [_ Hua], Hrb as [_ Hub].
    rewrite Hwa, Hwb, Hsa, Hsb, <- Hua, <- Hub. lia.
  - intros a wallet count Ha Hrow Hnot.
    apply list_elem_of_lookup in Ha as [i Ha].
    apply toScoreboard_lookup in Ha as (ra & Hra & _ & Hwa & Hsa).
    apply list_elem_of_lookup_2 in Hra.
    assert (Hua : updated_at ra = upd (wallet_address ra)).
    { apply elem_of_take in Hra as (? & Hra & _).
      apply list_elem_of_lookup_2, sortedRows_elem in Hra as [_ Hua]. exact Hua. }
    set (r := {| wallet_address := wallet; interaction_count := count;
                 updated_at := upd wallet |}).
    assert (Hr : r ∈ sorted) by (apply sortedRows_elem; auto).
    rewrite <- (take_drop (Z.to_nat k) sorted) in Hr.
    apply elem_of_app in Hr as [Hr|Hr].
    + exfalso. apply Hnot. rewrite toScoreboard_wallets.
      apply (list_elem_of_fmap_2 wallet_address) in Hr. exact Hr.
    + pose proof (Hcross ra r Hra Hr) as Hord. apply rowBefore_iff in Hord.
      simpl in Hord. rewrite Hwa, Hsa, <- Hua. lia.
Qed.

(** [A] and [B] both stand at 10; [A], updated earlier, is listed first,
    and [C], left out by the limit 2, has no more than the first entry. *)
Lemma X16_scoreboard_is_the_ordered_top_of_the_table_witness :
  Scenario.updatedAt "A" <= Scenario.updatedAt "B" /\ 3 <= 10.
Proof.
  pose proof (X16_scoreboard_is_the_ordered_top_of_the_table Scenario.parseInt
                Scenario.updatedAt (Sample.healthy []) (Some "2") Scenario.table
                _ eq_refl) as [Hsort Htop].
  split.
  - exact (proj2 (Hsort 0%nat 1%nat
                    {| rank := 1; walletAddress := "A"; score := 10 |}
                    {| rank := 2; walletAddress := "B"; score := 10 |}
                    ltac:(lia) eq_refl eq_refl) eq_refl).
  - refine (proj1 (Htop {| rank := 1; walletAddress := "A"; score := 10 |}
                        "C" 3 _ eq_refl _)).
    + apply list_elem_of_In. left. reflexivity.
    + intros H. apply list_elem_of_In in H. simpl in H.
      destruct H as [H|[H|[]]]; discriminate H.
Defined.



(** * Further properties of the scheduler *)

Lemma schedulerStep_invariant s e :
  intervalArmed s = true ->
  List.NoDup (running s) ->
  (forall id, In id (running s) -> (id < nextId s)%nat) ->
  intervalArmed (schedulerStep s e) = true /\
  List.NoDup (running (schedulerStep s e)) /\
  (forall id, In id (running (schedulerStep s e)) ->
              (id < nextId (schedulerStep s e))%nat) /\
  nextId (schedulerStep s e) = (nextId s + expiries [e])%nat.
Proof.
  intros Ha Hnd Hlt. destruct e as [id|]; simpl.
  - destruct (existsb (Nat.eqb id) (running s)); simpl.
    + split; [rewrite Ha; reflexivity|].
      split; [apply List.NoDup_filter; exact Hnd|].
      split; [|unfold expiries; simpl; lia].
      intros x Hx. apply filter_In in Hx as [Hx _]. auto.
    + split; [exact Ha|]. split; [exact Hnd|].
      split; [exact Hlt|]. unfold expiries. simpl. lia.
  - rewrite Ha. simpl.
    split; [exact Ha|]. split; [|split].
    + apply List.NoDup_app; [exact Hnd | repeat constructor; intros [] |].
      intros x Hx [<-|[]]. apply Hlt in Hx. lia.
    + intros x Hx. apply in_app_iff in Hx as [Hx|[<-|[]]]; [apply Hlt in Hx|]; lia.
    + unfold expiries. simpl. lia.
Qed.

(** X18. Once the first cycle has settled, every expiry of the interval
    starts a cycle and nothing else does: after any sequence of expiries
    and completions the number of cycles started so far is one plus the
    number of expiries, however many cycles are still in flight; the
    cycles in flight are distinct cycles, each started earlier. *)
Theorem X18_every_expiry_starts_one_cycle :
  forall es : list SchedulerEvent,
    nextId (schedulerRun (schedulerStep runIndexer (CycleSettled 0)) es)
      = (1 + expiries es)%nat /\
    intervalArmed (schedulerRun (schedulerStep runIndexer (CycleSettled 0)) es)
      = true /\
    List.NoDup (running (schedulerRun (schedulerStep runIndexer (CycleSettled 0)) es)) /\
    (forall id,
        In id (running (schedulerRun (schedulerStep runIndexer (CycleSettled 0)) es)) ->
        (1 <= id <= expiries es)%nat).
Proof.
  intros es.
  assert (Hgen : forall es s,
             intervalArmed s = true -> List.NoDup (running s) ->
             (forall id, In id (running s) -> (id < nextId s)%nat) ->
             nextId (schedulerRun s es) = (nextId s + expiries es)%nat /\
             intervalArmed (schedulerRun s es) = true /\
             List.NoDup (running (schedulerRun s es)) /\
             (forall id, In id (running (schedulerRun s es)) ->
                         In id (running s) \/
                         (nextId s <= id < nextId s + expiries es)%nat)).
  { clear es. unfold schedulerRun.
    induction es as [|e es IH]; intros s Ha Hnd Hlt; simpl.
    - split; [unfold expiries; simpl; lia|]. split; [exact Ha|].
      split; [exact Hnd|]. intros id Hid. left. exact Hid.
    - destruct (schedulerStep_invariant s e Ha Hnd Hlt) as (Ha' & Hnd' & Hlt' & Hn').
      destruct (IH (schedulerStep s e) Ha' Hnd' Hlt') as (Hn & Harm & Hnodup & Hin).
      assert (Hexp : expiries (e :: es) = (expiries [e] + expiries es)%nat).
      { unfold expiries. simpl. destruct e; simpl; lia. }
      split; [rewrite Hn, Hn', Hexp; lia|]. split; [exact Harm|].
      split; [exact Hnodup|].
      { intros id Hid. destruct (Hin id Hid) as [Hold|Hnew].
        * destruct e as [c|]; simpl in Hold.
          -- left. destruct (existsb (Nat.eqb c) (running s)); simpl in Hold; auto.
             apply filter_In in Hold as [Hold _]. exact Hold.
          -- rewrite Ha in Hold. simpl in Hold.
             apply in_app_iff in Hold as [Hold|[<-|[]]]; [left; exact Hold|].
             right. unfold expiries. simpl. lia.
        * right. rewrite Hn' in Hnew. rewrite Hexp. lia. } }
  destruct (Hgen es (schedulerStep runIndexer (CycleSettled 0)) eq_refl)
    as (Hn & Harm & Hnodup & Hin).
  - simpl. constructor.
  - simpl. intros id [].
  - simpl in Hn. split; [exact Hn|]. split; [exact Harm|]. split; [exact Hnodup|].
    intros id Hid. destruct (Hin id Hid) as [[]|Hr]. simpl in Hr. lia.
Qed.

(** Two expiries after the first cycle has settled: cycle 2 is in flight
    and is one of the two cycles those expiries started. *)
Lemma X18_every_expiry_starts_one_cycle_witness :
  (1 <= 2 <= expiries [IntervalElapsed; IntervalElapsed])%nat.
Proof.
  exact (proj2 (proj2 (proj2
           (X18_every_expiry_starts_one_cycle [IntervalElapsed; IntervalElapsed])))
           2%nat (or_intror (or_introl eq_refl))).
Defined.

(** * Storage failures seen from the whole cycle *)

(** Once the details are fetched, what remains of a cycle is the merge
    followed by the assignment of the checkpoint, inside the outer
    [try]. *)
Lemma cycle_reaches_merge pid env w sigs txs :
  getSignaturesForAddress env SIGNATURE_FETCH_LIMIT (lastProcessedSignature w)
    = Normal (Some sigs) ->
  newSignaturesToProcess (lastProcessedSignature w) sigs <> [] ->
  fetchedTransactions env
    (length (newSignaturesToProcess (lastProcessedSignature w) sigs)) 0
    (newSignaturesToProcess (lastProcessedSignature w) sigs) = Some txs ->
  exists w1,
    sameState w w1 /\
    processNewTransactions pid env w =
    try_catch
      (let* _ := mergeCounts env (countBatch pid JSMap.empty txs) in
       assignNewest (newSignaturesToProcess (lastProcessedSignature w) sigs))
      (fun error => ret tt) w1.
Proof.
  intros Hsig Hnovel Hf.
  assert (Hne : sigs <> []).
  { intros ->. apply Hnovel. apply newSignaturesToProcess_nil. }
  destruct (cycle_after_fetch pid env w sigs Hsig Hne)
    as (w0 & (Hl0 & Hs0 & Hse0) & Htr0 & Hrun).
  rewrite Hrun. clear Hrun. cbv zeta.
  set (novel := newSignaturesToProcess (lastProcessedSignature w) sigs) in *.
  destruct (Z.eqb_spec (Z.of_nat (length novel)) 0) as [Hz|Hnz].
  { apply length_zero_nil in Hz. contradiction. }
  destruct (fetchBatches_complete pid env novel (length novel) 0 JSMap.empty w0 txs
              ltac:(lia) Hf)
    as (w1 & evs & Hfb & (Hl1 & Hs1 & Hse1) & _).
  exists w1. split; [repeat split; congruence|].
  unfold try_catch, bind. rewrite Hfb. reflexivity.
Qed.

(** X19. If a cycle has increments to store and no storage client can
    be obtained, the cycle ends with the checkpoint, the counters and the
    session as they were: the same window will be processed again by the
    next cycle. *)
Theorem X19_unreachable_storage_keeps_the_checkpoint :
  forall (pid : PublicKey) (env : Env) (w : World)
         (sigs : list ConfirmedSignatureInfo)
         (txs : list (option ParsedTransactionWithMeta)),
    getSignaturesForAddress env SIGNATURE_FETCH_LIMIT (lastProcessedSignature w)
      = Normal (Some sigs) ->
    newSignaturesToProcess (lastProcessedSignature w) sigs <> [] ->
    fetchedTransactions env
      (length (newSignaturesToProcess (lastProcessedSignature w) sigs)) 0
      (newSignaturesToProcess (lastProcessedSignature w) sigs) = Some txs ->
    countBatch pid JSMap.empty txs <> [] ->
    db_connect_ok env = false ->
    sameState w (cycle pid env w).
Proof.
  intros pid env w sigs txs Hsig Hnovel Hf Hcounts Hc.
  destruct (cycle_reaches_merge pid env w sigs txs Hsig Hnovel Hf)
    as (w1 & (Hl1 & Hs1 & Hse1) & Hrun).
  unfold cycle. rewrite Hrun. clear Hrun.
  destruct (countBatch pid JSMap.empty txs) as [|p counts]; [congruence|].
  unfold try_catch, bind, mergeCounts. rewrite size_cons_pos.
  unfold db_getClient. run_monad. rewrite Hc. simpl.
  repeat split; assumption.
Qed.

(** Storage cannot be reached: the checkpoint stays absent. *)
Lemma X19_unreachable_storage_keeps_the_checkpoint_witness :
  sameState (boot ∅)
    (cycle Sample.program (Sample.connectFails Sample.window) (boot ∅)).
Proof.
  exact (X19_unreachable_storage_keeps_the_checkpoint Sample.program
           (Sample.connectFails Sample.window) (boot ∅) Sample.window _
           eq_refl ltac:(discriminate) eq_refl ltac:(discriminate) eq_refl).
Defined.

(** X20. If a cycle has increments to store, a client is obtained, and
    the merge then fails to commit (BEGIN, a statement or COMMIT fails)
    while ROLLBACK goes through, the failure is swallowed: no counter
    changes, and the checkpoint still moves to the newest fetched
    identifier, so that these increments are not retried. *)
Theorem X20_failed_merge_still_moves_the_checkpoint :
  forall (pid : PublicKey) (env : Env) (w : World)
         (sigs : list ConfirmedSignatureInfo)
         (txs : list (option ParsedTransactionWithMeta)),
    getSignaturesForAddress env SIGNATURE_FETCH_LIMIT (lastProcessedSignature w)
      = Normal (Some sigs) ->
    newSignaturesToProcess (lastProcessedSignature w) sigs <> [] ->
    fetchedTransactions env
      (length (newSignaturesToProcess (lastProcessedSignature w) sigs)) 0
      (newSignaturesToProcess (lastProcessedSignature w) sigs) = Some txs ->
    countBatch pid JSMap.empty txs <> [] ->
    db_connect_ok env = true ->
    db_rollback_ok env = true ->
    mergeCommits env (countBatch pid JSMap.empty txs) (wallet_scores w) = false ->
    wallet_scores (cycle pid env w) = wallet_scores w /\
    lastProcessedSignature (cycle pid env w) = signature <$> head sigs.
Proof.
  intros pid env w sigs txs Hsig Hnovel Hf Hcounts Hc Hr Hm.
  destruct (cycle_reaches_merge pid env w sigs txs Hsig Hnovel Hf)
    as (w1 & (Hl1 & Hs1 & Hse1) & Hrun).
  unfold cycle. rewrite Hrun. clear Hrun.
  pose proof (newSignaturesToProcess_head _ _ Hnovel) as Hhead.
  destruct (newSignaturesToProcess (lastProcessedSignature w) sigs)
    as [|s novel] eqn:Hn; [congruence|].
  rewrite <- Hs1 in Hm.
  destruct (storage_failure_swallowed env _ (s :: novel) s w1 Hcounts eq_refl Hc Hr Hm)
    as (w' & Hrun & Hl & Hs).
  unfold try_catch. rewrite Hrun. simpl. split; [congruence|].
  rewrite Hl, <- Hhead. reflexivity.
Qed.

(** COMMIT fails on a cold start over [s5,...,s1]: no counter is written
    and the checkpoint is [s5]. *)
Lemma X20_failed_merge_still_moves_the_checkpoint_witness :
  wallet_scores (cycle Sample.program (Sample.commitFails Sample.window) (boot ∅))
  = ∅ /\
  lastProcessedSignature
    (cycle Sample.program (Sample.commitFails Sample.window) (boot ∅)) = Some "s5".
Proof.
  exact (X20_failed_merge_still_moves_the_checkpoint Sample.program
           (Sample.commitFails Sample.window) (boot ∅) Sample.window _
           eq_refl ltac:(discriminate) eq_refl ltac:(discriminate)
           eq_refl eq_refl eq_refl).
Defined.
